(** * input-tools: segmentation, response decoding, URL building, paging
      and the search-text state machine.

    A shallow embedding of [src/utils.ts] (both revisions found in the
    repository) and of the logic of [src/input-tools.tsx], followed by the
    properties stated in the specification.

    JavaScript strings are sequences of UTF-16 code units; they are modelled
    as lists of integers.  Functions that can throw return a [result]. *)

From Stdlib Require Import ZArith Bool Lia String Ascii List Permutation Finite.
Import ListNotations.
Open Scope Z_scope.
Set Warnings "-register-all".

(* ================================================================== *)
(** * Strings *)

(** A JavaScript string: the list of its UTF-16 code units. *)
Definition jsstring := list Z.

(** An ASCII literal as a JavaScript string. *)
Definition u16 (s : string) : jsstring :=
  map (fun a => Z.of_N (N_of_ascii a)) (list_ascii_of_string s).

(** UTF-8 bytes to UTF-16 code units, for literals outside ASCII. *)
Fixpoint utf16_of_utf8 (bytes : list Z) : jsstring :=
  match bytes with
  | [] => []
  | b1 :: r1 =>
      if b1 <? 0x80 then b1 :: utf16_of_utf8 r1
      else
        match r1 with
        | [] => []
        | b2 :: r2 =>
            if b1 <? 0xE0 then
              ((b1 - 0xC0) * 64 + (b2 - 0x80)) :: utf16_of_utf8 r2
            else
              match r2 with
              | [] => []
              | b3 :: r3 =>
                  if b1 <? 0xF0 then
                    ((b1 - 0xE0) * 4096 + (b2 - 0x80) * 64 + (b3 - 0x80))
                      :: utf16_of_utf8 r3
                  else
                    match r3 with
                    | [] => []
                    | b4 :: r4 =>
                        let v := (b1 - 0xF0) * 262144 + (b2 - 0x80) * 4096
                                 + (b3 - 0x80) * 64 + (b4 - 0x80) - 0x10000 in
                        (0xD800 + v / 0x400) :: (0xDC00 + v mod 0x400)
                          :: utf16_of_utf8 r4
                    end
              end
        end
  end.

(** A literal for example inputs: UTF-8 text in which the apostrophe
    stands for the double quote (code unit 34). *)
Definition lit (s : string) : jsstring :=
  map (fun c => if c =? 39 then 34 else c) (utf16_of_utf8 (u16 s)).

Fixpoint jsstring_eqb (a b : jsstring) : bool :=
  match a, b with
  | [], [] => true
  | x :: a', y :: b' => (x =? y) && jsstring_eqb a' b'
  | _, _ => false
  end.

(** Code-unit classes used by the source. *)
Definition isChinese (code : Z) : bool := (0x4e00 <=? code) && (code <=? 0x9fff).
Definition isNumeric (code : Z) : bool := (48 <=? code) && (code <=? 57).
Definition isHighSurrogate (code : Z) : bool := (0xD800 <=? code) && (code <=? 0xDBFF).
Definition isLowSurrogate (code : Z) : bool := (0xDC00 <=? code) && (code <=? 0xDFFF).

(** ECMAScript LineTerminator: the characters [.] does not match. *)
Definition isLineTerminator (code : Z) : bool :=
  (code =? 0x0A) || (code =? 0x0D) || (code =? 0x2028) || (code =? 0x2029).

(** ECMAScript WhiteSpace and LineTerminator: what [String.prototype.trim]
    strips. *)
Definition isWhiteSpace (code : Z) : bool :=
  (code =? 0x09) || (code =? 0x0B) || (code =? 0x0C) || (code =? 0x20) ||
  (code =? 0xA0) || (code =? 0xFEFF) || (code =? 0x1680) ||
  ((0x2000 <=? code) && (code <=? 0x200A)) ||
  (code =? 0x202F) || (code =? 0x205F) || (code =? 0x3000) ||
  isLineTerminator code.

Fixpoint trimStart (s : jsstring) : jsstring :=
  match s with
  | [] => []
  | c :: s' => if isWhiteSpace c then trimStart s' else s
  end.

(** [String.prototype.trim]. *)
Definition trim (s : jsstring) : jsstring := rev (trimStart (rev (trimStart s))).

(** The string iterator behind [for (const char of text)]: it yields code
    points, a surrogate pair as one two-unit string and any other unit (a
    lone surrogate too) as a one-unit string. *)
Fixpoint chars (s : jsstring) : list jsstring :=
  match s with
  | [] => []
  | hi :: rest =>
      match rest with
      | lo :: rest' =>
          if isHighSurrogate hi && isLowSurrogate lo
          then [hi; lo] :: chars rest'
          else [hi] :: chars rest
      | [] => [[hi]]
      end
  end.

(* ================================================================== *)
(** * Results and exceptions *)

(** JSON values, as [JSON.parse] builds them.  A number keeps its lexeme
    and an object its members in source order: the decoder only asks
    whether a value is an array, for an array's length and elements, and
    whether a value is the string SUCCESS. *)
Inductive json : Type :=
| JNull
| JBool (b : bool)
| JNumber (lexeme : jsstring)
| JString (s : jsstring)
| JArray (elements : list json)
| JObject (members : list (jsstring * json)).

(** What the code throws.  [Error message] is [new Error(message)].
    [StatusError status] is the throw statement of utils.ts:34, whose
    [Error] is built from the template [`API returned status: ${status}`]:
    it records the value that is interpolated.  The conversion of that
    value to text is not modelled, except by [statusMessage] for a status
    that is a string.  [URIError] is what [encodeURIComponent] throws on a
    lone surrogate. *)
Inductive exn : Type :=
| Error (message : jsstring)
| StatusError (status : json)
| URIError.

Inductive result (A : Type) : Type :=
| Ok (value : A)
| Throw (e : exn).
Arguments Ok {A} value.
Arguments Throw {A} e.

Definition statusMessage (e : exn) : option jsstring :=
  match e with
  | Error m => Some m
  | StatusError (JString s) => Some (u16 "API returned status: " ++ s)
  | _ => None
  end.

(** The specification's names for the decoder's errors. *)
Definition MalformedEnvelope : exn := Error (u16 "Invalid JSONP response format").
Definition MalformedPayload : exn := Error (u16 "Failed to parse JSON response").
Definition UnexpectedShape : exn := Error (u16 "Unexpected response format").
Definition ProviderError (status : json) : exn := StatusError status.

(* ================================================================== *)
(** * Regular expressions of the source *)

Module RegExp.

(** Index of the first unit of [s] (counted from [i]) that is in [cls]. *)
Fixpoint search (cls : Z -> bool) (s : jsstring) (i : nat) : option nat :=
  match s with
  | [] => None
  | c :: s' => if cls c then Some i else search cls s' (S i)
  end.

(** [re.test(s)] for a one-character-class pattern [/[...]/g], started
    at [lastIndex]: the answer and the new [lastIndex].  A global regex
    searches from [lastIndex]; on success [lastIndex] becomes the end of
    the match, on failure (or when [lastIndex] is past the end) 0. *)
Definition test_g (cls : Z -> bool) (s : jsstring) (lastIndex : nat)
  : bool * nat :=
  if (length s <? lastIndex)%nat then (false, 0%nat)
  else match search cls (skipn lastIndex s) lastIndex with
       | Some i => (true, S i)
       | None => (false, 0%nat)
       end.

(** [(.+)\)$] matched at the start of [s], by backtracking: [.+] takes
    the longest run of non-line-terminators and gives units back until
    the rest is exactly one closing parenthesis.  [run] is the length of the greedy run
    still to try; the capture is returned. *)
Fixpoint dotplus_close (s : jsstring) (run : nat) : option jsstring :=
  match run with
  | O => None
  | S run' =>
      match skipn run s with
      | [c] => if c =? 41 then Some (firstn run s) else dotplus_close s run'
      | _ => dotplus_close s run'
      end
  end.

Fixpoint dot_run (s : jsstring) : nat :=
  match s with
  | [] => O
  | c :: s' => if isLineTerminator c then O else S (dot_run s')
  end.

Definition payload_at (s : jsstring) : option jsstring :=
  dotplus_close s (dot_run s).

(** [text.match(/\((.+)\)$/)]: the leftmost start position at which the
    pattern matches; the value is capture group 1. *)
Fixpoint JSONP_MATCH (text : jsstring) : option jsstring :=
  match text with
  | [] => None
  | c :: rest =>
      match (if c =? 40 then payload_at rest else None) with
      | Some m => Some m
      | None => JSONP_MATCH rest
      end
  end.

(** [.*?\((.+)\)$] matched at the start of [s]: the lazy [.*?] first
    tries to stop, and only then takes one more non-line-terminator. *)
Fixpoint lazy_prefix (s : jsstring) : option jsstring :=
  match s with
  | [] => None
  | c :: rest =>
      match (if c =? 40 then payload_at rest else None) with
      | Some m => Some m
      | None => if isLineTerminator c then None else lazy_prefix rest
      end
  end.

(** [text.match(/.*?\((.+)\)$/)]. *)
Fixpoint JSONP_ALT_MATCH (text : jsstring) : option jsstring :=
  match lazy_prefix text with
  | Some m => Some m
  | None => match text with
            | [] => None
            | _ :: rest => JSONP_ALT_MATCH rest
            end
  end.

(** [([1-6]|9|0)]. *)
Definition isSelectionKey (c : Z) : bool :=
  ((49 <=? c) && (c <=? 54)) || (c =? 57) || (c =? 48).

(** [^(.*?)([1-6]|9|0)$] matched from the start: the lazy group grows
    one non-line-terminator at a time until the rest is a single key.
    Returns groups 1 and 2. *)
Fixpoint SELECTION_from (base s : jsstring) : option (jsstring * Z) :=
  match s with
  | [] => None
  | c :: rest =>
      match rest with
      | [] => if isSelectionKey c then Some (base, c) else None
      | _ :: _ =>
          if isLineTerminator c then None
          else SELECTION_from (base ++ [c]) rest
      end
  end.

(** [text.match(SELECTION_REGEX)]. *)
Definition SELECTION_REGEX (text : jsstring) : option (jsstring * Z) :=
  SELECTION_from [] text.

End RegExp.

(* ================================================================== *)
(** * JSON.parse *)

(** [JSON.parse] as a lexer (one code unit per step) followed by a stack
    parser (one token per step), after the JSON grammar of ECMA-404:
    white space is tab, line feed, carriage return and space; a string
    may hold any unit from U+0020 on except the quote and the backslash,
    and the escapes: quote, backslash, slash, b, f, n, r, t and u with
    four hexadecimal digits. *)
Module JSON.

Inductive token : Type :=
| TLBracket | TRBracket | TLBrace | TRBrace | TComma | TColon
| TValue (v : json).

Inductive numstate : Type :=
| NMinus | NZero | NInt | NDot | NFrac | NExp | NExpSign | NExpDigits.

Inductive lexstate : Type :=
| LDefault
| LString (acc : jsstring)
| LEscape (acc : jsstring)
| LUnicode (acc : jsstring) (read : nat) (value : Z)
| LNumber (st : numstate) (lexeme : jsstring)
| LLiteral (expected : jsstring) (v : json).

Definition isWS (c : Z) : bool :=
  (c =? 0x20) || (c =? 0x09) || (c =? 0x0A) || (c =? 0x0D).

Definition isDigit (c : Z) : bool := (48 <=? c) && (c <=? 57).

Definition hexValue (c : Z) : option Z :=
  if (48 <=? c) && (c <=? 57) then Some (c - 48)
  else if (65 <=? c) && (c <=? 70) then Some (c - 55)
  else if (97 <=? c) && (c <=? 102) then Some (c - 87)
  else None.

(** One unit read in the default state. *)
Definition lex_default (c : Z) : option (lexstate * list token) :=
  if isWS c then Some (LDefault, [])
  else if c =? 91 then Some (LDefault, [TLBracket])
  else if c =? 93 then Some (LDefault, [TRBracket])
  else if c =? 123 then Some (LDefault, [TLBrace])
  else if c =? 125 then Some (LDefault, [TRBrace])
  else if c =? 44 then Some (LDefault, [TComma])
  else if c =? 58 then Some (LDefault, [TColon])
  else if c =? 34 then Some (LString [], [])
  else if c =? 45 then Some (LNumber NMinus [c], [])
  else if c =? 48 then Some (LNumber NZero [c], [])
  else if isDigit c then Some (LNumber NInt [c], [])
  else if c =? 116 then Some (LLiteral (u16 "rue") (JBool true), [])
  else if c =? 102 then Some (LLiteral (u16 "alse") (JBool false), [])
  else if c =? 110 then Some (LLiteral (u16 "ull") JNull, [])
  else None.

Definition isExp (c : Z) : bool := (c =? 101) || (c =? 69).

(** The number automaton: [Some (Some st)] goes on, [Some None] means
    the number ended before [c], [None] is a syntax error. *)
Definition lex_number (st : numstate) (c : Z) : option (option numstate) :=
  match st with
  | NMinus => if c =? 48 then Some (Some NZero)
              else if isDigit c then Some (Some NInt) else None
  | NZero => if c =? 46 then Some (Some NDot)
             else if isExp c then Some (Some NExp) else Some None
  | NInt => if isDigit c then Some (Some NInt)
            else if c =? 46 then Some (Some NDot)
            else if isExp c then Some (Some NExp) else Some None
  | NDot => if isDigit c then Some (Some NFrac) else None
  | NFrac => if isDigit c then Some (Some NFrac)
             else if isExp c then Some (Some NExp) else Some None
  | NExp => if (c =? 43) || (c =? 45) then Some (Some NExpSign)
            else if isDigit c then Some (Some NExpDigits) else None
  | NExpSign => if isDigit c then Some (Some NExpDigits) else None
  | NExpDigits => if isDigit c then Some (Some NExpDigits) else Some None
  end.

Definition number_complete (st : numstate) : bool :=
  match st with
  | NZero | NInt | NFrac | NExpDigits => true
  | _ => false
  end.

Definition lex_step (st : lexstate) (c : Z) : option (lexstate * list token) :=
  match st with
  | LDefault => lex_default c
  | LString acc =>
      if c =? 34 then Some (LDefault, [TValue (JString acc)])
      else if c =? 92 then Some (LEscape acc, [])
      else if c <? 0x20 then None
      else Some (LString (acc ++ [c]), [])
  | LEscape acc =>
      if (c =? 34) || (c =? 92) || (c =? 47) then Some (LString (acc ++ [c]), [])
      else if c =? 98 then Some (LString (acc ++ [8]), [])
      else if c =? 102 then Some (LString (acc ++ [12]), [])
      else if c =? 110 then Some (LString (acc ++ [10]), [])
      else if c =? 114 then Some (LString (acc ++ [13]), [])
      else if c =? 116 then Some (LString (acc ++ [9]), [])
      else if c =? 117 then Some (LUnicode acc 0 0, [])
      else None
  | LUnicode acc read value =>
      match hexValue c with
      | Some d =>
          if (read =? 3)%nat then Some (LString (acc ++ [value * 16 + d]), [])
          else Some (LUnicode acc (S read) (value * 16 + d), [])
      | None => None
      end
  | LNumber nst lexeme =>
      match lex_number nst c with
      | Some (Some nst') => Some (LNumber nst' (lexeme ++ [c]), [])
      | Some None =>
          match lex_default c with
          | Some (st', toks) => Some (st', TValue (JNumber lexeme) :: toks)
          | None => None
          end
      | None => None
      end
  | LLiteral expected v =>
      match expected with
      | [] => None
      | x :: rest =>
          if c =? x then
            match rest with
            | [] => Some (LDefault, [TValue v])
            | _ :: _ => Some (LLiteral rest v, [])
            end
          else None
      end
  end.

Fixpoint lex (st : lexstate) (s : jsstring) : option (list token) :=
  match s with
  | [] =>
      match st with
      | LDefault => Some []
      | LNumber nst lexeme =>
          if number_complete nst then Some [TValue (JNumber lexeme)] else None
      | _ => None
      end
  | c :: s' =>
      match lex_step st c with
      | Some (st', toks) =>
          match lex st' s' with
          | Some more => Some (toks ++ more)
          | None => None
          end
      | None => None
      end
  end.

(** An open container on the parser's stack. *)
Inductive frame : Type :=
| FArray (done : list json)
| FObject (done : list (jsstring * json)) (key : jsstring).

Inductive pstate : Type :=
| PValue (stack : list frame)
| PArrayStart (stack : list frame)
| PArrayNext (done : list json) (stack : list frame)
| PObjectStart (stack : list frame)
| PKey (done : list (jsstring * json)) (stack : list frame)
| PColon (done : list (jsstring * json)) (key : jsstring) (stack : list frame)
| PObjectNext (done : list (jsstring * json)) (stack : list frame)
| PDone (v : json).

(** A complete value goes into the innermost open container. *)
Definition feed (stack : list frame) (v : json) : pstate :=
  match stack with
  | [] => PDone v
  | FArray done :: stack' => PArrayNext (done ++ [v]) stack'
  | FObject done key :: stack' => PObjectNext (done ++ [(key, v)]) stack'
  end.

Definition parse_value (stack : list frame) (t : token) : option pstate :=
  match t with
  | TValue v => Some (feed stack v)
  | TLBracket => Some (PArrayStart stack)
  | TLBrace => Some (PObjectStart stack)
  | _ => None
  end.

Definition parse_step (st : pstate) (t : token) : option pstate :=
  match st with
  | PValue stack => parse_value stack t
  | PArrayStart stack =>
      match t with
      | TRBracket => Some (feed stack (JArray []))
      | _ => parse_value (FArray [] :: stack) t
      end
  | PArrayNext done stack =>
      match t with
      | TComma => Some (PValue (FArray done :: stack))
      | TRBracket => Some (feed stack (JArray done))
      | _ => None
      end
  | PObjectStart stack =>
      match t with
      | TRBrace => Some (feed stack (JObject []))
      | TValue (JString k) => Some (PColon [] k stack)
      | _ => None
      end
  | PKey done stack =>
      match t with
      | TValue (JString k) => Some (PColon done k stack)
      | _ => None
      end
  | PColon done k stack =>
      match t with
      | TColon => Some (PValue (FObject done k :: stack))
      | _ => None
      end
  | PObjectNext done stack =>
      match t with
      | TComma => Some (PKey done stack)
      | TRBrace => Some (feed stack (JObject done))
      | _ => None
      end
  | PDone _ => None
  end.

Fixpoint parse_tokens (st : pstate) (ts : list token) : option json :=
  match ts with
  | [] => match st with PDone v => Some v | _ => None end
  | t :: ts' =>
      match parse_step st t with
      | Some st' => parse_tokens st' ts'
      | None => None
      end
  end.

(** [JSON.parse(text)]; [None] is the [SyntaxError]. *)
Definition parse (text : jsstring) : option json :=
  match lex LDefault text with
  | Some ts => parse_tokens (PValue []) ts
  | None => None
  end.

End JSON.

(* ================================================================== *)
(** * encodeURIComponent *)

Module URI.

(** uriUnreserved: letters, digits and [- _ . ! ~ * ' ( )]. *)
Definition isUnreserved (c : Z) : bool :=
  ((65 <=? c) && (c <=? 90)) || ((97 <=? c) && (c <=? 122)) ||
  ((48 <=? c) && (c <=? 57)) ||
  (c =? 45) || (c =? 95) || (c =? 46) || (c =? 33) || (c =? 126) ||
  (c =? 42) || (c =? 39) || (c =? 40) || (c =? 41).

Definition utf8 (cp : Z) : list Z :=
  if cp <? 0x80 then [cp]
  else if cp <? 0x800 then
    [Z.lor 0xC0 (Z.shiftr cp 6); Z.lor 0x80 (Z.land cp 0x3F)]
  else if cp <? 0x10000 then
    [Z.lor 0xE0 (Z.shiftr cp 12);
     Z.lor 0x80 (Z.land (Z.shiftr cp 6) 0x3F);
     Z.lor 0x80 (Z.land cp 0x3F)]
  else
    [Z.lor 0xF0 (Z.shiftr cp 18);
     Z.lor 0x80 (Z.land (Z.shiftr cp 12) 0x3F);
     Z.lor 0x80 (Z.land (Z.shiftr cp 6) 0x3F);
     Z.lor 0x80 (Z.land cp 0x3F)].

Definition hexDigit (d : Z) : Z := if d <? 10 then 48 + d else 55 + d.

(** One octet as a percent sign and two upper-case hexadecimal digits. *)
Definition percent (octet : Z) : jsstring :=
  [37; hexDigit (Z.shiftr octet 4); hexDigit (Z.land octet 0xF)].

(** One code point, as [chars] yields it; [None] on a lone surrogate. *)
Definition encodeChar (char : jsstring) : option jsstring :=
  match char with
  | [c] =>
      if isUnreserved c then Some [c]
      else if isHighSurrogate c || isLowSurrogate c then None
      else Some (flat_map percent (utf8 c))
  | [hi; lo] =>
      Some (flat_map percent
              (utf8 ((hi - 0xD800) * 0x400 + (lo - 0xDC00) + 0x10000)))
  | _ => None
  end.

Fixpoint encodeChars (l : list jsstring) : option jsstring :=
  match l with
  | [] => Some []
  | char :: l' =>
      match encodeChar char, encodeChars l' with
      | Some e, Some es => Some (e ++ es)
      | _, _ => None
      end
  end.

(** [String.prototype.isWellFormed]: no lone surrogate. *)
Definition isWellFormed (s : jsstring) : bool :=
  forallb (fun char =>
             match char with
             | [c] => negb (isHighSurrogate c || isLowSurrogate c)
             | _ => true
             end) (chars s).

(** [encodeURIComponent(s)]; [None] is the [URIError]. *)
Definition encodeURIComponent (s : jsstring) : option jsstring :=
  encodeChars (chars s).

End URI.

(* ================================================================== *)
(** * Map<string, string> *)

(** A JavaScript [Map] keeps its entries in insertion order; [set] on a
    key that is present keeps the key's place. *)
Module Map.

Definition t := list (jsstring * jsstring).

Definition empty : t := [].

Fixpoint get (k : jsstring) (m : t) : option jsstring :=
  match m with
  | [] => None
  | (k', v) :: m' => if jsstring_eqb k k' then Some v else get k m'
  end.

Definition has (k : jsstring) (m : t) : bool :=
  match get k m with Some _ => true | None => false end.

Fixpoint set (k v : jsstring) (m : t) : t :=
  match m with
  | [] => [(k, v)]
  | (k', v') :: m' =>
      if jsstring_eqb k k' then (k', v) :: m' else (k', v') :: set k v m'
  end.

Fixpoint delete (k : jsstring) (m : t) : t :=
  match m with
  | [] => []
  | (k', v') :: m' =>
      if jsstring_eqb k k' then m' else (k', v') :: delete k m'
  end.

Definition size (m : t) : Z := Z.of_nat (length m).

(** [m.keys().next().value]; [None] is [undefined]. *)
Definition first_key (m : t) : option jsstring :=
  match m with
  | [] => None
  | (k, _) :: _ => Some k
  end.

Definition keys (m : t) : list jsstring := map fst m.

End Map.

(* ================================================================== *)
(** * src/utils.ts *)

Module Utils.

(** ** parseSuggestionsResponse *)

(** The body of the loop [for (const item of data)]. *)
Definition push_item (suggestions : list json) (item : json) : list json :=
  match item with
  | JArray els =>
      if (2 <=? length els)%nat then
        match nth_error els 1 with
        | Some (JArray candidates) => suggestions ++ candidates
        | _ => suggestions
        end
      else suggestions
  | _ => suggestions
  end.

Definition isSuccess (status : json) : bool :=
  match status with
  | JString s => jsstring_eqb s (u16 "SUCCESS")
  | _ => false
  end.

(** The returned array holds whatever values the groups held: the
    declared element type [string] is not checked at run time. *)
Definition parseSuggestionsResponse (jsonpText : jsstring)
  : result (list json) :=
  let match_ :=
    match RegExp.JSONP_MATCH jsonpText with
    | Some m => Some m
    | None => RegExp.JSONP_ALT_MATCH jsonpText
    end in
  match match_ with
  | None => Throw (Error (u16 "Invalid JSONP response format"))
  | Some group1 =>
      match JSON.parse group1 with
      | None => Throw (Error (u16 "Failed to parse JSON response"))
      | Some jsonData =>
          match jsonData with
          | JArray (status :: data :: _) =>
              if negb (isSuccess status) then Throw (StatusError status)
              else
                match data with
                | JArray items => Ok (fold_left push_item items [])
                | _ => Ok []
                end
          | _ => Throw (Error (u16 "Unexpected response format"))
          end
      end
  end.

(** ** separateChineseAndEnglish *)

(** The two module-level regular expressions carry the [g] flag, so
    each keeps a [lastIndex] between calls of [test]. *)
Record RegexState : Type := {
  CHINESE_lastIndex : nat;
  NUMERIC_lastIndex : nat
}.

Definition regex_init : RegexState :=
  {| CHINESE_lastIndex := 0; NUMERIC_lastIndex := 0 |}.

Record Separated : Type := {
  chinese : jsstring;
  english : jsstring
}.

(** The body of the loop [for (const char of text)]. *)
Definition separate_step (acc : Separated * RegexState) (char : jsstring)
  : Separated * RegexState :=
  let (out, re) := acc in
  let (isC, cli) := RegExp.test_g isChinese char (CHINESE_lastIndex re) in
  if isC then
    ({| chinese := chinese out ++ char; english := english out |},
     {| CHINESE_lastIndex := 0; NUMERIC_lastIndex := NUMERIC_lastIndex re |})
  else
    let (isN, nli) := RegExp.test_g isNumeric char (NUMERIC_lastIndex re) in
    if negb isN then
      ({| chinese := chinese out; english := english out ++ char |},
       {| CHINESE_lastIndex := cli; NUMERIC_lastIndex := 0 |})
    else
      (out, {| CHINESE_lastIndex := cli; NUMERIC_lastIndex := nli |}).

Definition separateChineseAndEnglish (re : RegexState) (text : jsstring)
  : Separated * RegexState :=
  match text with
  | [] => ({| chinese := []; english := [] |}, re)
  | _ :: _ =>
      fold_left separate_step (chars text)
                ({| chinese := []; english := [] |}, re)
  end.

(** ** buildSuggestionsUrl *)

Definition MAX_CACHE_SIZE : Z := 100.

Definition url_prefix : jsstring :=
  u16 "https://inputtools.google.com/request?text=".

Definition url_params : jsstring :=
  u16 "&itc=yue-hant-t-i0-und&num=13&cp=0&cs=1&ie=utf-8&oe=utf-8&app=jsapi&cb=".

Definition callbackName : jsstring := u16 "_callbacks____raycast".

(** The template literal of utils.ts:93. *)
Definition url_of (encodedInput : jsstring) : jsstring :=
  url_prefix ++ encodedInput ++ url_params ++ callbackName.

(** [chinese ? `|${chinese},${english}` : english]; an absent and an
    empty [chinese] are both falsy. *)
Definition input_of (english : jsstring) (chinese : option jsstring)
  : jsstring :=
  match chinese with
  | Some (c :: cs) => u16 "|" ++ (c :: cs) ++ u16 "," ++ english
  | _ => english
  end.

(** The eviction of utils.ts:96-102; [if (firstKey)] is false for an
    absent key and for the empty string. *)
Definition evict (urlCache : Map.t) : Map.t :=
  if MAX_CACHE_SIZE <=? Map.size urlCache then
    match Map.first_key urlCache with
    | Some (c :: cs) => Map.delete (c :: cs) urlCache
    | _ => urlCache
    end
  else urlCache.

(** The module-level [urlCache] is threaded through.  [has] and [get]
    are one lookup here: the cache holds strings only. *)
Definition buildSuggestionsUrl (urlCache : Map.t)
           (english : jsstring) (chinese : option jsstring)
  : result jsstring * Map.t :=
  let input := input_of english chinese in
  let cacheKey := input in
  match Map.get cacheKey urlCache with
  | Some url => (Ok url, urlCache)
  | None =>
      match URI.encodeURIComponent input with
      | None => (Throw URIError, urlCache)
      | Some encodedInput =>
          let url := url_of encodedInput in
          (Ok url, Map.set cacheKey url (evict urlCache))
      end
  end.

Definition clearUrlCache (urlCache : Map.t) : Map.t := Map.empty.

(** A sequence of calls of [buildSuggestionsUrl] on the module's
    cache: the results in order, and the cache that is left. *)
Fixpoint build_calls (urlCache : Map.t)
         (calls : list (jsstring * option jsstring))
  : list (result jsstring) * Map.t :=
  match calls with
  | [] => ([], urlCache)
  | (english, chinese) :: calls' =>
      let (r, urlCache') := buildSuggestionsUrl urlCache english chinese in
      let (rs, final) := build_calls urlCache' calls' in
      (r :: rs, final)
  end.

End Utils.

(* ================================================================== *)
(** * The later revision of utils.ts (unnamed/part_000) *)

(** Its [parseSuggestionsResponse], [buildSuggestionsUrl] and
    [clearUrlCache] are those of [Utils], line for line; the segmenter
    reads code units with [charCodeAt] and uses no regular expression. *)
Module UtilsCharCode.

(** The body of the loop [for (let i = 0; i < text.length; i++)]. *)
Definition separate_step (acc : Utils.Separated) (code : Z)
  : Utils.Separated :=
  if (0x4e00 <=? code) && (code <=? 0x9fff) then
    {| Utils.chinese := Utils.chinese acc ++ [code];
       Utils.english := Utils.english acc |}
  else if (code <? 48) || (code >? 57) then
    {| Utils.chinese := Utils.chinese acc;
       Utils.english := Utils.english acc ++ [code] |}
  else acc.

Definition separateChineseAndEnglish (text : jsstring) : Utils.Separated :=
  match text with
  | [] => {| Utils.chinese := []; Utils.english := [] |}
  | _ :: _ =>
      fold_left separate_step text
                {| Utils.chinese := []; Utils.english := [] |}
  end.

End UtilsCharCode.

(* ================================================================== *)
(** * src/input-tools.tsx *)

(** Numbers of the component are array lengths, the constant page size
    and page indices: integers, modelled in [Z]. *)
Module InputTools.

Definition SUGGESTIONS_PER_PAGE : Z := 6.
Definition DEBOUNCE_DELAY : Z := 200.
Definition INITIAL_DEBOUNCE_DELAY : Z := 100.

Definition NUMERIC_KEYS : list jsstring :=
  [u16 "1"; u16 "2"; u16 "3"; u16 "4"; u16 "5"; u16 "6"; u16 "9"; u16 "0"].

Definition NUMERIC_KEYS_has (s : jsstring) : bool :=
  existsb (jsstring_eqb s) NUMERIC_KEYS.

(** [Math.ceil(a / b)] for integers [a] and [b > 0]. *)
Definition Math_ceil_div (a b : Z) : Z := - ((- a) / b).

Record Pagination : Type := {
  totalPages : Z;
  hasNextPage : bool;
  hasPreviousPage : bool;
  startIndex : Z;
  endIndex : Z;
  currentPage : Z
}.

(** The hook of input-tools.tsx:65-82. *)
Definition usePagination (totalItems itemsPerPage currentPage : Z)
  : Pagination :=
  let safeItemsPerPage := Z.max 1 itemsPerPage in
  let totalPages := Z.max 1 (Math_ceil_div totalItems safeItemsPerPage) in
  let safePage := Z.min currentPage (totalPages - 1) in
  let hasNextPage := safePage <? totalPages - 1 in
  let hasPreviousPage := safePage >? 0 in
  {| totalPages := totalPages;
     hasNextPage := hasNextPage;
     hasPreviousPage := hasPreviousPage;
     startIndex := safePage * safeItemsPerPage;
     endIndex := (safePage + 1) * safeItemsPerPage;
     currentPage := safePage |}.

(** The two hooks the later revision (unnamed/part_002:75-99) splits
    the computation into. *)
Definition usePaginationCalculations (totalItems itemsPerPage : Z) : Z * Z :=
  let safeItemsPerPage := Z.max 1 itemsPerPage in
  let totalPages := Z.max 1 (Math_ceil_div totalItems safeItemsPerPage) in
  (safeItemsPerPage, totalPages).

Definition usePaginationState (currentPage totalPages safeItemsPerPage : Z)
  : Pagination :=
  let safePage := Z.min currentPage (totalPages - 1) in
  let hasNextPage := safePage <? totalPages - 1 in
  let hasPreviousPage := safePage >? 0 in
  let startIndex := safePage * safeItemsPerPage in
  let endIndex := (safePage + 1) * safeItemsPerPage in
  {| totalPages := totalPages;
     hasNextPage := hasNextPage;
     hasPreviousPage := hasPreviousPage;
     startIndex := startIndex;
     endIndex := endIndex;
     currentPage := safePage |}.

(** [Array.prototype.slice(start, end)]. *)
Definition slice {A : Type} (l : list A) (start end_ : Z) : list A :=
  let len := Z.of_nat (length l) in
  let k := if start <? 0 then Z.max (len + start) 0 else Z.min start len in
  let final := if end_ <? 0 then Z.max (len + end_) 0 else Z.min end_ len in
  firstn (Z.to_nat (final - k)) (skipn (Z.to_nat k) l).

(** A displayed candidate; its [id], a rendering key, is left out. *)
Record Suggestion : Type := {
  text : jsstring;
  index : Z
}.

(** The component's state, the [data] of the fetch hook
    ([suggestions]), the memoized locator and the module state of
    utils.ts it runs on. *)
Record State : Type := {
  searchText : jsstring;
  hasSelectedSuggestion : bool;
  debouncedSearchText : jsstring;
  currentPageState : Z;
  suggestions : list jsstring;
  suggestionsUrlMemo : jsstring;
  regex : Utils.RegexState;
  urlCache : Map.t
}.

Definition initial : State :=
  {| searchText := [];
     hasSelectedSuggestion := false;
     debouncedSearchText := [];
     currentPageState := 0;
     suggestions := [];
     suggestionsUrlMemo := [];
     regex := Utils.regex_init;
     urlCache := Map.empty |}.

Definition setSearchText (v : jsstring) (st : State) : State :=
  {| searchText := v;
     hasSelectedSuggestion := hasSelectedSuggestion st;
     debouncedSearchText := debouncedSearchText st;
     currentPageState := currentPageState st;
     suggestions := suggestions st;
     suggestionsUrlMemo := suggestionsUrlMemo st;
     regex := regex st;
     urlCache := urlCache st |}.

Definition setHasSelectedSuggestion (v : bool) (st : State) : State :=
  {| searchText := searchText st;
     hasSelectedSuggestion := v;
     debouncedSearchText := debouncedSearchText st;
     currentPageState := currentPageState st;
     suggestions := suggestions st;
     suggestionsUrlMemo := suggestionsUrlMemo st;
     regex := regex st;
     urlCache := urlCache st |}.

Definition setCurrentPage (v : Z) (st : State) : State :=
  {| searchText := searchText st;
     hasSelectedSuggestion := hasSelectedSuggestion st;
     debouncedSearchText := debouncedSearchText st;
     currentPageState := v;
     suggestions := suggestions st;
     suggestionsUrlMemo := suggestionsUrlMemo st;
     regex := regex st;
     urlCache := urlCache st |}.

(** [mutate]'s optimistic update replaces the hook's data at once. *)
Definition mutate (v : list jsstring) (st : State) : State :=
  {| searchText := searchText st;
     hasSelectedSuggestion := hasSelectedSuggestion st;
     debouncedSearchText := debouncedSearchText st;
     currentPageState := currentPageState st;
     suggestions := v;
     suggestionsUrlMemo := suggestionsUrlMemo st;
     regex := regex st;
     urlCache := urlCache st |}.

Definition setRegex (v : Utils.RegexState) (st : State) : State :=
  {| searchText := searchText st;
     hasSelectedSuggestion := hasSelectedSuggestion st;
     debouncedSearchText := debouncedSearchText st;
     currentPageState := currentPageState st;
     suggestions := suggestions st;
     suggestionsUrlMemo := suggestionsUrlMemo st;
     regex := v;
     urlCache := urlCache st |}.

(** [useDebounce]'s delay (input-tools.tsx:88-91). *)
Definition debounceDelay (st : State) : Z :=
  if hasSelectedSuggestion st then DEBOUNCE_DELAY else INITIAL_DEBOUNCE_DELAY.

Definition pagination (st : State) : Pagination :=
  usePagination (Z.of_nat (length (suggestions st)))
                SUGGESTIONS_PER_PAGE (currentPageState st).

Fixpoint number_from (i : Z) (l : list jsstring) : list Suggestion :=
  match l with
  | [] => []
  | t :: l' => {| text := t; index := i + 1 |} :: number_from (i + 1) l'
  end.

(** input-tools.tsx:142-150. *)
Definition paginatedSuggestions (st : State) : list Suggestion :=
  match suggestions st with
  | [] => []
  | _ :: _ =>
      number_from 0 (slice (suggestions st)
                           (startIndex (pagination st))
                           (endIndex (pagination st)))
  end.

Definition goToNextPage (st : State) : State :=
  if hasNextPage (pagination st) then
    setCurrentPage (Z.min (currentPageState st + 1)
                          (totalPages (pagination st) - 1)) st
  else st.

Definition goToPreviousPage (st : State) : State :=
  if hasPreviousPage (pagination st) then
    setCurrentPage (Z.max (currentPageState st - 1) 0) st
  else st.

(** input-tools.tsx:183-199. *)
Definition handleSuggestionSelect (st : State) (suggestion : Suggestion)
  : State :=
  let (sep, re) := Utils.separateChineseAndEnglish (regex st) (searchText st) in
  let newText := Utils.chinese sep ++ text suggestion in
  mutate [] (setHasSelectedSuggestion true
               (setSearchText newText (setRegex re st))).

(** input-tools.tsx:202-250: whether the text was a control sequence
    that was acted on, and the state after it. *)
Definition handleNumericAction (st : State) (text_ : jsstring)
  : bool * State :=
  let lastChar := skipn (length text_ - 1) text_ in
  if negb (NUMERIC_KEYS_has lastChar) then (false, st)
  else
    match RegExp.SELECTION_REGEX text_ with
    | None => (false, st)
    | Some (baseText, digit) =>
        let num := digit - 48 in
        if (1 <=? num) && (num <=? 6) then
          let selectedIndex := num - 1 in
          if selectedIndex <? Z.of_nat (length (paginatedSuggestions st)) then
            match nth_error (paginatedSuggestions st)
                            (Z.to_nat selectedIndex) with
            | Some selectedSuggestion =>
                (true, handleSuggestionSelect st selectedSuggestion)
            | None => (false, st)
            end
          else (false, st)
        else if (num =? 0) && hasNextPage (pagination st) then
          (true, setSearchText baseText (goToNextPage st))
        else if (num =? 9) && hasPreviousPage (pagination st) then
          (true, setSearchText baseText (goToPreviousPage st))
        else (false, st)
    end.

(** input-tools.tsx:253-271: the buffer-change event. *)
Definition handleSearchTextChange (st : State) (text_ : jsstring) : State :=
  let st1 :=
    match trim text_ with
    | [] => setHasSelectedSuggestion false st
    | _ :: _ => st
    end in
  let (handled, st2) := handleNumericAction st1 text_ in
  if handled then st2
  else
    let (sep, re) := Utils.separateChineseAndEnglish (regex st2) text_ in
    let newText := Utils.chinese sep ++ Utils.english sep in
    setSearchText newText (setRegex re st2).

(** input-tools.tsx:103-110: the locator for a debounced text, with
    the module state it leaves.  The empty string means no request. *)
Definition suggestionsUrl (re : Utils.RegexState) (cache : Map.t)
           (debounced : jsstring)
  : result jsstring * Utils.RegexState * Map.t :=
  match trim debounced with
  | [] => (Ok [], re, cache)
  | _ :: _ =>
      let (sep, re') := Utils.separateChineseAndEnglish re debounced in
      match trim (Utils.english sep) with
      | [] => (Ok [], re', cache)
      | _ :: _ =>
          let (r, cache') :=
            Utils.buildSuggestionsUrl cache (Utils.english sep)
                                      (Some (Utils.chinese sep)) in
          (r, re', cache')
      end
  end.

(** The state in which [buffer] has been typed on a fresh component, the
    debounce timer has elapsed and the fetch hook holds [candidates]. *)
Definition showing (buffer : jsstring) (candidates : list jsstring) : State :=
  let '(r, re, cache) := suggestionsUrl Utils.regex_init Map.empty buffer in
  {| searchText := buffer;
     hasSelectedSuggestion := false;
     debouncedSearchText := buffer;
     currentPageState := 0;
     suggestions := candidates;
     suggestionsUrlMemo := match r with Ok url => url | Throw _ => [] end;
     regex := re;
     urlCache := cache |}.

(** [execute: !!suggestionsUrl]: the request the fetch hook makes. *)
Definition request (url : jsstring) : option jsstring :=
  match url with
  | [] => None
  | _ :: _ => Some url
  end.

(** The debounce timer elapses: [debouncedSearchText] takes the value
    of [searchText]; when that changes it, the effect of
    input-tools.tsx:98-100 resets the page, the locator is recomputed
    and the fetch hook is called with it (input-tools.tsx:113-136).
    The data the hook then returns is decided by useFetch of
    @raycast/utils, which the repository does not contain:
    [useFetch url previous] stands for the data it returns for the
    locator [url] when it returned [previous] at the render before. *)
Definition debounceElapsed
           (useFetch : jsstring -> list jsstring -> list jsstring)
           (st : State) : result State :=
  if jsstring_eqb (searchText st) (debouncedSearchText st) then Ok st
  else
    match suggestionsUrl (regex st) (urlCache st) (searchText st) with
    | (Ok url, re, cache) =>
        Ok {| searchText := searchText st;
              hasSelectedSuggestion := hasSelectedSuggestion st;
              debouncedSearchText := searchText st;
              currentPageState := 0;
              suggestions := useFetch url (suggestions st);
              suggestionsUrlMemo := url;
              regex := re;
              urlCache := cache |}
    | (Throw e, _, _) => Throw e
    end.

End InputTools.

(* ================================================================== *)
(** * Reference definitions, after the specification's wording *)

Module Spec.

(** The candidates of a group: the members of its second element when
    the group is an array of length at least 2 whose second element is
    an array; none for any other group. *)
Definition group_candidates (group : json) : list json :=
  match group with
  | JArray (_ :: JArray candidates :: _) => candidates
  | _ => []
  end.

(** The groups of a data payload (none when it is not an array). *)
Definition groups (data : json) : list json :=
  match data with
  | JArray gs => gs
  | _ => []
  end.

(** The concatenation, in encounter order, of every group's
    candidates. *)
Definition candidates (data : json) : list json :=
  flat_map group_candidates (groups data).

(** The text between the parentheses that the envelope patterns give
    up: the strict pattern's group, or else the fallback's. *)
Definition extracted (text payload : jsstring) : Prop :=
  RegExp.JSONP_MATCH text = Some payload \/
  (RegExp.JSONP_MATCH text = None /\
   RegExp.JSONP_ALT_MATCH text = Some payload).

Definition retained (text : jsstring) : jsstring := filter isChinese text.

Definition query (text : jsstring) : jsstring :=
  filter (fun c => negb (isChinese c) && negb (isNumeric c)) text.

Definition non_digits (text : jsstring) : jsstring :=
  filter (fun c => negb (isNumeric c)) text.

(** [n] distinct three-letter queries (qaa, qab, ...), each a call of
    the builder without retained context. *)
Definition numbered_queries (n : nat) : list (jsstring * option jsstring) :=
  map (fun i => (u16 "q" ++ [97 + Z.of_nat i / 26; 97 + Z.of_nat i mod 26],
                 @None jsstring))
      (seq 0 n).

(** The locator of a canonical key, when the key can be encoded. *)
Definition locator (key : jsstring) : result jsstring :=
  match URI.encodeURIComponent key with
  | Some e => Ok (Utils.url_of e)
  | None => Throw URIError
  end.


(** Every entry of the cache is the locator of its key. *)
Definition cache_ok (m : Map.t) : Prop :=
  forall k v, In (k, v) m -> locator k = Ok v.


(** The cache is within its bound and holds no empty key. *)
Definition cache_bounded (m : Map.t) : Prop :=
  Map.size m <= Utils.MAX_CACHE_SIZE /\
  Forall (fun kv => fst kv <> []) m.

End Spec.

(* ================================================================== *)
(** * Sessions: operations in sequence, and what a session keeps *)

Module Session.

(** An operation on the URL cache of utils.ts. *)
Inductive cache_op : Type :=
| Build (english : jsstring) (chinese : option jsstring)
| Clear.

(** The cache after a sequence of operations. *)
Fixpoint run_ops (urlCache : Map.t) (ops : list cache_op) : Map.t :=
  match ops with
  | [] => urlCache
  | Build english chinese :: ops' =>
      run_ops (snd (Utils.buildSuggestionsUrl urlCache english chinese)) ops'
  | Clear :: ops' => run_ops (Utils.clearUrlCache urlCache) ops'
  end.

(** The candidates shown when page [p] is the one asked for. *)
Definition page_slice (candidates : list jsstring) (p : nat) : list jsstring :=
  let pg := InputTools.usePagination (Z.of_nat (length candidates))
                                     InputTools.SUGGESTIONS_PER_PAGE
                                     (Z.of_nat p) in
  InputTools.slice candidates (InputTools.startIndex pg) (InputTools.endIndex pg).

(** What every handler of the component keeps: a page index that is not
    negative, the CJK regex at rest, and a cache of locators within its
    bound. *)
Definition invariant (st : InputTools.State) : Prop :=
  0 <= InputTools.currentPageState st /\
  Utils.CHINESE_lastIndex (InputTools.regex st) = 0%nat /\
  Spec.cache_ok (InputTools.urlCache st) /\
  Spec.cache_bounded (InputTools.urlCache st).

(** A string proper: every code unit within 16 bits. *)
Definition isString (s : jsstring) : Prop :=
  Forall (fun c => 0 <= c <= 0xFFFF) s.

(** The alphabet of an encoded component: the unreserved characters
    (the hexadecimal digits are among them) and the percent sign. *)
Definition isEncoded (c : Z) : bool := URI.isUnreserved c || (c =? 37).

End Session.

(* ================================================================== *)
(** * Properties *)

(** ** Strings and code-unit classes *)

Lemma jsstring_eqb_eq (a b : jsstring) : jsstring_eqb a b = true <-> a = b.
Proof.
  revert b; induction a as [|x a IH]; intros [|y b]; simpl;
    try (split; [discriminate | discriminate]); try tauto.
  rewrite andb_true_iff, Z.eqb_eq, IH.
  split; [intros [-> ->]; reflexivity | intros H; inversion H; auto].
Qed.

Lemma jsstring_eqb_refl (a : jsstring) : jsstring_eqb a a = true.
Proof. apply jsstring_eqb_eq; reflexivity. Qed.

Lemma jsstring_eqb_neq (a b : jsstring) : jsstring_eqb a b = false <-> a <> b.
Proof.
  split.
  - intros H E; apply jsstring_eqb_eq in E; congruence.
  - intros H; destruct (jsstring_eqb a b) eqn:E; auto.
    apply jsstring_eqb_eq in E; contradiction.
Qed.

Ltac unfold_classes :=
  unfold isWhiteSpace in *;
  unfold isChinese, isNumeric, isHighSurrogate, isLowSurrogate,
         isLineTerminator in *.

(** Decide a goal about code-unit classes by comparison of integers. *)
Ltac bool_to_prop :=
  repeat first
    [ rewrite orb_true_iff | rewrite andb_true_iff
    | rewrite orb_false_iff | rewrite andb_false_iff
    | rewrite negb_true_iff | rewrite negb_false_iff
    | rewrite Z.eqb_eq | rewrite Z.eqb_neq
    | rewrite Z.leb_le | rewrite Z.leb_gt
    | rewrite Z.ltb_lt | rewrite Z.ltb_ge
    | rewrite Z.gtb_ltb ].

Ltac bool_to_prop_in H :=
  repeat first
    [ rewrite orb_true_iff in H | rewrite andb_true_iff in H
    | rewrite orb_false_iff in H | rewrite andb_false_iff in H
    | rewrite negb_true_iff in H | rewrite negb_false_iff in H
    | rewrite Z.eqb_eq in H | rewrite Z.eqb_neq in H
    | rewrite Z.leb_le in H | rewrite Z.leb_gt in H
    | rewrite Z.ltb_lt in H | rewrite Z.ltb_ge in H
    | rewrite Z.gtb_ltb in H ].

Ltac class_lia :=
  intros; unfold_classes;
  repeat match goal with
         | H : _ = true |- _ => progress bool_to_prop_in H
         | H : _ = false |- _ => progress bool_to_prop_in H
         end;
  bool_to_prop; lia.

Lemma chinese_not_numeric (c : Z) : isChinese c = true -> isNumeric c = false.
Proof. class_lia. Qed.

Lemma chinese_not_numeric_contra (c : Z) :
  isNumeric c = true -> isChinese c = false.
Proof. class_lia. Qed.

Lemma chinese_not_surrogate (c : Z) :
  isHighSurrogate c || isLowSurrogate c = true -> isChinese c = false.
Proof. class_lia. Qed.

Lemma numeric_not_surrogate (c : Z) :
  isHighSurrogate c || isLowSurrogate c = true -> isNumeric c = false.
Proof. class_lia. Qed.

Lemma whitespace_not_surrogate (c : Z) :
  isWhiteSpace c = true -> isHighSurrogate c || isLowSurrogate c = false.
Proof. class_lia. Qed.

Lemma not_digit_test (c : Z) : (c <? 48) || (c >? 57) = negb (isNumeric c).
Proof.
  unfold isNumeric. rewrite Z.gtb_ltb, negb_andb, <- Z.ltb_antisym.
  now rewrite <- Z.ltb_antisym.
Qed.

(** ** The segmenter *)

Lemma retained_query_perm (text : jsstring) :
  Permutation (Spec.retained text ++ Spec.query text) (Spec.non_digits text).
Proof.
  unfold Spec.retained, Spec.query, Spec.non_digits.
  induction text as [|c text IH]; simpl; [constructor|].
  destruct (isChinese c) eqn:EC; simpl.
  - rewrite (chinese_not_numeric c EC); simpl. constructor; exact IH.
  - destruct (isNumeric c); simpl; [exact IH|].
    apply Permutation_sym, Permutation_cons_app, Permutation_sym, IH.
Qed.

Lemma charCode_fold (text : jsstring) (acc : Utils.Separated) :
  fold_left UtilsCharCode.separate_step text acc =
  {| Utils.chinese := Utils.chinese acc ++ Spec.retained text;
     Utils.english := Utils.english acc ++ Spec.query text |}.
Proof.
  revert acc; induction text as [|c text IH]; intros [ch en]; simpl.
  - now rewrite !app_nil_r.
  - rewrite IH. unfold UtilsCharCode.separate_step; simpl.
    rewrite not_digit_test. fold (isChinese c).
    destruct (isChinese c) eqn:EC; simpl.
    + now rewrite <- app_assoc.
    + destruct (isNumeric c); simpl; [reflexivity|].
      now rewrite <- app_assoc.
Qed.

Lemma charCode_separate_eq (text : jsstring) :
  UtilsCharCode.separateChineseAndEnglish text =
  {| Utils.chinese := Spec.retained text; Utils.english := Spec.query text |}.
Proof.
  destruct text as [|c text]; [reflexivity|].
  unfold UtilsCharCode.separateChineseAndEnglish. now rewrite charCode_fold.
Qed.

(** X13.  The segmenter of the later revision (unnamed/part_000) does what the
    specification asks of it: the retained part holds only characters of
    U+4E00..U+9FFF and no digit, the query part holds no digit and no
    such character, each is the input with the other characters removed
    (so input order is kept), together they are the non-digit characters
    of the input, and the empty input gives two empty strings. *)
Theorem charCode_segmenter_spec (text : jsstring) :
  let r := UtilsCharCode.separateChineseAndEnglish text in
  Forall (fun c => isChinese c = true /\ isNumeric c = false) (Utils.chinese r) /\
  Forall (fun c => isNumeric c = false /\ isChinese c = false) (Utils.english r) /\
  Utils.chinese r = Spec.retained text /\
  Utils.english r = Spec.query text /\
  Permutation (Utils.chinese r ++ Utils.english r) (Spec.non_digits text) /\
  UtilsCharCode.separateChineseAndEnglish [] =
    {| Utils.chinese := []; Utils.english := [] |}.
Proof.
  cbv zeta. rewrite charCode_separate_eq; simpl.
  repeat split; try apply retained_query_perm.
  - apply Forall_forall; intros c Hc. unfold Spec.retained in Hc.
    apply filter_In in Hc as [_ Hc]. auto using chinese_not_numeric.
  - apply Forall_forall; intros c Hc. unfold Spec.query in Hc.
    apply filter_In in Hc as [_ Hc]. apply andb_true_iff in Hc as [H1 H2].
    now rewrite negb_true_iff in H1, H2.
Qed.

(** C1.  The segmenter of src/utils.ts run on the text 12 with both
    regular expressions at rest: the digit 1 is dropped, but the test that
    drops it leaves [lastIndex] of the digit regex at 1, so that the test
    of the next character starts past its end and fails: the digit 2
    lands in the query part.  Called a second time on the text 1 after
    the text 1, it returns that digit too. *)
Theorem regex_segmenter_keeps_digit :
  fst (Utils.separateChineseAndEnglish Utils.regex_init (u16 "12")) =
    {| Utils.chinese := []; Utils.english := u16 "2" |} /\
  (let (_, re) := Utils.separateChineseAndEnglish Utils.regex_init (u16 "1") in
   fst (Utils.separateChineseAndEnglish re (u16 "1")) =
     {| Utils.chinese := []; Utils.english := u16 "1" |}) /\
  UtilsCharCode.separateChineseAndEnglish (u16 "12") =
    {| Utils.chinese := []; Utils.english := [] |}.
Proof. repeat split. Qed.

(** ** The segmenter of src/utils.ts, one code unit at a time *)

Lemma chars_ind2 (P : jsstring -> Prop) :
  P [] -> (forall c, P [c]) ->
  (forall hi lo s, P s -> P (lo :: s) -> P (hi :: lo :: s)) ->
  forall s, P s.
Proof.
  intros H0 H1 H2 s.
  assert (H : P s /\ forall c, P (c :: s)).
  { induction s as [|x s [IH1 IH2]]; split; auto. }
  apply H.
Qed.

Lemma search_none (cls : Z -> bool) (s : jsstring) (i : nat) :
  Forall (fun c => cls c = false) s -> RegExp.search cls s i = None.
Proof.
  intros H; revert i; induction H as [|c s Hc _ IH]; intros i; simpl; auto.
  now rewrite Hc.
Qed.

Lemma test_g_none (cls : Z -> bool) (s : jsstring) (li : nat) :
  Forall (fun c => cls c = false) s -> RegExp.test_g cls s li = (false, 0%nat).
Proof.
  intros H. unfold RegExp.test_g.
  destruct (length s <? li)%nat; [reflexivity|].
  rewrite search_none; [reflexivity|].
  apply Forall_forall; intros c Hc. rewrite Forall_forall in H.
  apply H. revert Hc. clear. revert s.
  induction li; intros [|x s]; simpl; auto.
Qed.

Lemma test_g_unit (cls : Z -> bool) (c : Z) (li : nat) :
  RegExp.test_g cls [c] li =
  if (li =? 0)%nat && cls c then (true, 1%nat) else (false, 0%nat).
Proof.
  unfold RegExp.test_g.
  destruct li as [|[|li]]; simpl; [destruct (cls c)| |]; reflexivity.
Qed.

Lemma separate_step_unit (out : Utils.Separated) (cl nl : nat) (c : Z) :
  Utils.separate_step
    (out, {| Utils.CHINESE_lastIndex := cl; Utils.NUMERIC_lastIndex := nl |}) [c] =
  if (cl =? 0)%nat && isChinese c then
    ({| Utils.chinese := Utils.chinese out ++ [c];
        Utils.english := Utils.english out |},
     {| Utils.CHINESE_lastIndex := 0; Utils.NUMERIC_lastIndex := nl |})
  else if (nl =? 0)%nat && isNumeric c then
    (out, {| Utils.CHINESE_lastIndex := 0; Utils.NUMERIC_lastIndex := 1 |})
  else
    ({| Utils.chinese := Utils.chinese out;
        Utils.english := Utils.english out ++ [c] |},
     {| Utils.CHINESE_lastIndex := 0; Utils.NUMERIC_lastIndex := 0 |}).
Proof.
  unfold Utils.separate_step; simpl. rewrite !test_g_unit.
  destruct ((cl =? 0)%nat && isChinese c); [reflexivity|].
  destruct ((nl =? 0)%nat && isNumeric c); reflexivity.
Qed.

Lemma separate_step_pair (out : Utils.Separated) (re : Utils.RegexState)
      (hi lo : Z) :
  isHighSurrogate hi && isLowSurrogate lo = true ->
  Utils.separate_step (out, re) [hi; lo] =
  Utils.separate_step (Utils.separate_step (out, re) [hi]) [lo].
Proof.
  intros H. apply andb_true_iff in H as [Hh Hl].
  assert (Ch : isChinese hi = false) by (apply chinese_not_surrogate; now rewrite Hh).
  assert (Cl : isChinese lo = false)
    by (apply chinese_not_surrogate; rewrite Hl; apply orb_true_r).
  assert (Nh : isNumeric hi = false) by (apply numeric_not_surrogate; now rewrite Hh).
  assert (Nl : isNumeric lo = false)
    by (apply numeric_not_surrogate; rewrite Hl; apply orb_true_r).
  destruct re as [cl nl]. rewrite separate_step_unit.
  rewrite Ch, Nh, !andb_false_r. rewrite separate_step_unit.
  rewrite Cl, Nl, !andb_false_r. simpl.
  unfold Utils.separate_step; simpl.
  rewrite !test_g_none by (repeat constructor; assumption).
  simpl. now rewrite <- app_assoc.
Qed.

(** Iterating by code point or by code unit makes no difference to the
    segmenter: the units of a surrogate pair are neither CJK nor digits. *)
Lemma fold_chars_units (s : jsstring) :
  forall acc,
    fold_left Utils.separate_step (chars s) acc =
    fold_left (fun a c => Utils.separate_step a [c]) s acc.
Proof.
  induction s as [| c | hi lo s IH1 IH2] using chars_ind2; intros acc;
    try reflexivity.
  change (chars (hi :: lo :: s))
    with (if isHighSurrogate hi && isLowSurrogate lo
          then [hi; lo] :: chars s else [hi] :: chars (lo :: s)).
  destruct (isHighSurrogate hi && isLowSurrogate lo) eqn:E.
  - simpl. rewrite IH1. destruct acc as [out re].
    now rewrite separate_step_pair.
  - cbn [fold_left]. now rewrite IH2.
Qed.

Lemma fold_units_chinese (s : jsstring) :
  forall out nl,
    let r := fold_left (fun a c => Utils.separate_step a [c]) s
               (out, {| Utils.CHINESE_lastIndex := 0;
                        Utils.NUMERIC_lastIndex := nl |}) in
    Utils.chinese (fst r) = Utils.chinese out ++ Spec.retained s /\
    Utils.CHINESE_lastIndex (snd r) = 0%nat.
Proof.
  induction s as [|c s IH]; intros out nl; cbn [fold_left].
  - simpl. now rewrite app_nil_r.
  - rewrite separate_step_unit. simpl ((0 =? 0)%nat && _).
    unfold Spec.retained; simpl filter.
    destruct (isChinese c); [|destruct ((nl =? 0)%nat && isNumeric c)];
      cbv zeta.
    + destruct (IH {| Utils.chinese := Utils.chinese out ++ [c];
                      Utils.english := Utils.english out |} nl) as [E1 E2].
      cbv zeta in E1, E2. rewrite E1, E2. simpl.
      now rewrite <- app_assoc.
    + destruct (IH out 1%nat) as [E1 E2]. cbv zeta in E1, E2. now rewrite E1, E2.
    + destruct (IH {| Utils.chinese := Utils.chinese out;
                      Utils.english := Utils.english out ++ [c] |} 0%nat)
        as [E1 E2].
      cbv zeta in E1, E2. now rewrite E1, E2.
Qed.

Lemma query_no_digit (s : jsstring) :
  Forall (fun c => isNumeric c = false) s ->
  Spec.query s = filter (fun c => negb (isChinese c)) s.
Proof.
  unfold Spec.query. induction 1 as [|c s Hc _ IH]; simpl; [reflexivity|].
  now rewrite Hc, andb_true_r, IH.
Qed.

Lemma fold_units_no_digit (s : jsstring) :
  Forall (fun c => isNumeric c = false) s ->
  forall out,
    fold_left (fun a c => Utils.separate_step a [c]) s (out, Utils.regex_init) =
    ({| Utils.chinese := Utils.chinese out ++ Spec.retained s;
        Utils.english := Utils.english out ++ Spec.query s |},
     Utils.regex_init).
Proof.
  induction 1 as [|c s Hc _ IH]; intros [ch en]; cbn [fold_left].
  - simpl. now rewrite !app_nil_r.
  - unfold Utils.regex_init at 1. rewrite separate_step_unit.
    unfold Spec.retained, Spec.query; simpl filter.
    rewrite Hc, andb_false_r. simpl.
    destruct (isChinese c); simpl; fold Utils.regex_init; rewrite IH; simpl;
      unfold Spec.retained, Spec.query; now rewrite <- app_assoc.
Qed.

(** The retained part computed by src/utils.ts is right whatever the
    state of the digit regex, and the CJK regex is left at rest. *)
Lemma regex_separate_chinese (re : Utils.RegexState) (text : jsstring) :
  Utils.CHINESE_lastIndex re = 0%nat ->
  let r := Utils.separateChineseAndEnglish re text in
  Utils.chinese (fst r) = Spec.retained text /\
  Utils.CHINESE_lastIndex (snd r) = 0%nat.
Proof.
  intros H. destruct re as [cl nl]; simpl in H; subst cl.
  destruct text as [|c text]; [simpl; auto|].
  unfold Utils.separateChineseAndEnglish. rewrite fold_chars_units.
  apply (fold_units_chinese (c :: text) {| Utils.chinese := []; Utils.english := [] |}).
Qed.

(** On a text without digits, with both regular expressions at rest,
    the two revisions of the segmenter agree. *)
Lemma regex_separate_no_digit (text : jsstring) :
  Forall (fun c => isNumeric c = false) text ->
  Utils.separateChineseAndEnglish Utils.regex_init text =
  ({| Utils.chinese := Spec.retained text; Utils.english := Spec.query text |},
   Utils.regex_init).
Proof.
  intros H. destruct text as [|c text]; [reflexivity|].
  unfold Utils.separateChineseAndEnglish.
  now rewrite fold_chars_units, fold_units_no_digit.
Qed.

(** A digit at the end of a text without other digits is dropped, and
    leaves [lastIndex] of the digit regex at 1. *)
Lemma regex_separate_trailing_digit (base : jsstring) (d : Z) :
  Forall (fun c => isNumeric c = false) base ->
  isNumeric d = true ->
  Utils.separateChineseAndEnglish Utils.regex_init (base ++ [d]) =
  ({| Utils.chinese := Spec.retained base; Utils.english := Spec.query base |},
   {| Utils.CHINESE_lastIndex := 0; Utils.NUMERIC_lastIndex := 1 |}).
Proof.
  intros H Hd.
  assert (E : Utils.separateChineseAndEnglish Utils.regex_init (base ++ [d]) =
              fold_left (fun a c => Utils.separate_step a [c]) (base ++ [d])
                        ({| Utils.chinese := []; Utils.english := [] |},
                         Utils.regex_init)).
  { unfold Utils.separateChineseAndEnglish.
    destruct (base ++ [d]) eqn:E; [now destruct base|].
    now rewrite fold_chars_units. }
  rewrite E, fold_left_app, fold_units_no_digit by assumption.
  cbn [fold_left]. unfold Utils.regex_init. rewrite separate_step_unit.
  rewrite (chinese_not_numeric_contra d Hd), Hd. reflexivity.
Qed.

Lemma fold_units_english (s : jsstring) :
  forall out nl,
    let r := fold_left (fun a c => Utils.separate_step a [c]) s
               (out, {| Utils.CHINESE_lastIndex := 0;
                        Utils.NUMERIC_lastIndex := nl |}) in
    Spec.non_digits (Utils.english (fst r)) =
      Spec.non_digits (Utils.english out) ++ Spec.query s /\
    (Forall (fun c => isChinese c = false) (Utils.english out) ->
     Forall (fun c => isChinese c = false) (Utils.english (fst r))).
Proof.
  induction s as [|c s IH]; intros out nl; cbn [fold_left].
  - simpl. rewrite app_nil_r. auto.
  - rewrite separate_step_unit. simpl ((0 =? 0)%nat && _).
    unfold Spec.query; simpl filter. fold (Spec.query s).
    destruct (isChinese c) eqn:C; [|destruct ((nl =? 0)%nat && isNumeric c) eqn:N];
      cbv zeta.
    + apply (IH {| Utils.chinese := Utils.chinese out ++ [c];
                   Utils.english := Utils.english out |} nl).
    + apply andb_true_iff in N as [_ N]. rewrite N. simpl.
      apply (IH out 1%nat).
    + destruct (IH {| Utils.chinese := Utils.chinese out;
                      Utils.english := Utils.english out ++ [c] |} 0%nat)
        as [E1 E2].
      cbv zeta in E1, E2. cbn [Utils.english] in E1, E2. split.
      * rewrite E1. unfold Spec.non_digits. rewrite filter_app. simpl.
        destruct (isNumeric c); simpl; now rewrite <- ?app_assoc, ?app_nil_r.
      * intros H. apply E2. apply Forall_app. split; [exact H|].
        constructor; [exact C | constructor].
Qed.

Lemma regex_segmenter_up_to_digits_aux (re : Utils.RegexState)
      (text : jsstring) :
  Utils.CHINESE_lastIndex re = 0%nat ->
  Utils.chinese (fst (Utils.separateChineseAndEnglish re text)) =
    Spec.retained text /\
  Spec.non_digits (Utils.english (fst (Utils.separateChineseAndEnglish re text))) =
    Spec.query text.
Proof.
  intros H. split; [apply (regex_separate_chinese re text H)|].
  destruct re as [cl nl]; simpl in H; subst cl.
  destruct text as [|c text]; [reflexivity|].
  unfold Utils.separateChineseAndEnglish. rewrite fold_chars_units.
  apply (fold_units_english (c :: text)
           {| Utils.chinese := []; Utils.english := [] |} nl).
Qed.

(** ** The envelope patterns *)

Lemma dot_run_all (s : jsstring) :
  Forall (fun c => isLineTerminator c = false) s ->
  RegExp.dot_run s = length s.
Proof.
  induction 1 as [|c s Hc _ IH]; simpl; [reflexivity|]. now rewrite Hc, IH.
Qed.

Lemma skipn_app_length {A : Type} (a b : list A) : skipn (length a) (a ++ b) = b.
Proof. induction a; simpl; auto. Qed.

Lemma firstn_app_length {A : Type} (a b : list A) : firstn (length a) (a ++ b) = a.
Proof. induction a; simpl; [now destruct b|]. now f_equal. Qed.

(** After an opening parenthesis, a non-empty single-line payload
    followed by the closing parenthesis that ends the text is captured
    whole. *)
Lemma payload_at_closed (payload : jsstring) :
  payload <> [] ->
  Forall (fun c => isLineTerminator c = false) payload ->
  RegExp.payload_at (payload ++ [41]) = Some payload.
Proof.
  intros Hne H. unfold RegExp.payload_at.
  rewrite dot_run_all
    by (apply Forall_app; split; [assumption | repeat constructor]).
  rewrite length_app, Nat.add_comm. cbn [length Nat.add RegExp.dotplus_close].
  replace (skipn (S (length payload)) (payload ++ [41])) with (@nil Z).
  2:{ symmetry. apply skipn_all2. rewrite length_app. simpl. lia. }
  destruct payload as [|c payload]; [contradiction|].
  cbn [length RegExp.dotplus_close].
  change (S (length payload)) with (length (c :: payload)).
  now rewrite skipn_app_length, firstn_app_length.
Qed.

Lemma JSONP_MATCH_wrapped (prefix payload : jsstring) :
  Forall (fun c => c <> 40) prefix ->
  payload <> [] ->
  Forall (fun c => isLineTerminator c = false) payload ->
  RegExp.JSONP_MATCH (prefix ++ [40] ++ payload ++ [41]) = Some payload.
Proof.
  intros Hp Hne Hl. induction Hp as [|c prefix Hc _ IH]; simpl.
  - now rewrite payload_at_closed.
  - apply Z.eqb_neq in Hc. now rewrite Hc.
Qed.

Lemma lazy_prefix_match (s m : jsstring) :
  RegExp.lazy_prefix s = Some m -> RegExp.JSONP_MATCH s = Some m.
Proof.
  induction s as [|c s IH]; simpl; [discriminate|].
  destruct (if c =? 40 then RegExp.payload_at s else None); [auto|].
  destruct (isLineTerminator c); [discriminate | exact IH].
Qed.

(** The fallback pattern finds nothing the strict pattern does not:
    both capture the same group, or both fail. *)
Lemma JSONP_ALT_MATCH_eq (text : jsstring) :
  RegExp.JSONP_ALT_MATCH text = RegExp.JSONP_MATCH text.
Proof.
  induction text as [|c text IH]; [reflexivity|].
  cbn [RegExp.JSONP_ALT_MATCH RegExp.lazy_prefix RegExp.JSONP_MATCH].
  destruct (if c =? 40 then RegExp.payload_at text else None); [reflexivity|].
  destruct (isLineTerminator c); [exact IH|].
  destruct (RegExp.lazy_prefix text) eqn:E; [|exact IH].
  symmetry; now apply lazy_prefix_match.
Qed.

(** ** The decoder *)

Lemma push_item_candidates (acc : list json) (item : json) :
  Utils.push_item acc item = acc ++ Spec.group_candidates item.
Proof.
  destruct item as [| | | |els|]; simpl; try now rewrite app_nil_r.
  destruct els as [|x [|y els]]; simpl; try now rewrite app_nil_r.
  destruct y; now rewrite ?app_nil_r.
Qed.

Lemma fold_push_item (items : list json) :
  forall acc,
    fold_left Utils.push_item items acc =
    acc ++ flat_map Spec.group_candidates items.
Proof.
  induction items as [|item items IH]; intros acc; simpl.
  - now rewrite app_nil_r.
  - now rewrite IH, push_item_candidates, app_assoc.
Qed.

Lemma isSuccess_iff (status : json) :
  Utils.isSuccess status = true <-> status = JString (u16 "SUCCESS").
Proof.
  destruct status; simpl; try (split; discriminate).
  rewrite jsstring_eqb_eq. split; [now intros -> | now inversion 1].
Qed.

(** What the decoder does once the envelope has given up a payload. *)
Lemma decode_payload (text payload : jsstring) :
  Spec.extracted text payload ->
  Utils.parseSuggestionsResponse text =
  match JSON.parse payload with
  | None => Throw MalformedPayload
  | Some (JArray (status :: data :: _)) =>
      if Utils.isSuccess status then Ok (Spec.candidates data)
      else Throw (ProviderError status)
  | Some _ => Throw UnexpectedShape
  end.
Proof.
  intros H. unfold Utils.parseSuggestionsResponse.
  assert (E : match RegExp.JSONP_MATCH text with
              | Some m => Some m
              | None => RegExp.JSONP_ALT_MATCH text
              end = Some payload).
  { destruct H as [-> | [-> ->]]; reflexivity. }
  rewrite E. destruct (JSON.parse payload) as [j|]; [|reflexivity].
  destruct j as [| | | |[|status [|data els]]|]; try reflexivity.
  destruct (Utils.isSuccess status); [|reflexivity]. simpl.
  unfold Spec.candidates.
  destruct data; try reflexivity. simpl. now rewrite fold_push_item.
Qed.

Lemma no_paren_check (s : jsstring) :
  forallb (fun c => negb (c =? 40)) s = true -> Forall (fun c => c <> 40) s.
Proof.
  intros H. apply Forall_forall. intros c Hc.
  rewrite forallb_forall in H. specialize (H c Hc).
  apply negb_true_iff in H. now apply Z.eqb_neq.
Qed.

Lemma single_line_check (s : jsstring) :
  forallb (fun c => negb (isLineTerminator c)) s = true ->
  Forall (fun c => isLineTerminator c = false) s.
Proof.
  intros H. apply Forall_forall. intros c Hc.
  rewrite forallb_forall in H. specialize (H c Hc).
  now apply negb_true_iff in H.
Qed.

Lemma no_digit_check (s : jsstring) :
  forallb (fun c => negb (isNumeric c)) s = true ->
  Forall (fun c => isNumeric c = false) s.
Proof.
  intros H. apply Forall_forall. intros c Hc.
  rewrite forallb_forall in H. specialize (H c Hc).
  now apply negb_true_iff in H.
Qed.

(** C3, as the code has it.  For a response text made of a prefix
    without an opening parenthesis, an opening parenthesis, a payload on
    one line and the closing parenthesis, where the payload is a JSON
    array of at least two elements whose element 0 is the string SUCCESS,
    the decoder returns the concatenation, in encounter order, of the
    second-element array of every group of element 1 that is an array of
    length at least 2 with an array as second element; other groups are
    skipped, and a payload without groups gives the empty sequence. *)
Theorem decode_success_candidates
        (prefix payload : jsstring) (data : json) (rest : list json) :
  Forall (fun c => c <> 40) prefix ->
  Forall (fun c => isLineTerminator c = false) payload ->
  JSON.parse payload = Some (JArray (JString (u16 "SUCCESS") :: data :: rest)) ->
  Utils.parseSuggestionsResponse (prefix ++ [40] ++ payload ++ [41]) =
  Ok (Spec.candidates data).
Proof.
  intros Hp Hl Hj.
  assert (Hne : payload <> []) by (intros ->; discriminate Hj).
  rewrite (decode_payload _ payload)
    by (left; now apply JSONP_MATCH_wrapped).
  rewrite Hj. reflexivity.
Qed.

(** The response of the specification's example decodes to its three
    candidates. *)
Lemma decode_success_candidates_witness :
  Utils.parseSuggestionsResponse
    (lit "/*API*/_callbacks____x(['SUCCESS',[['m',['唔','五','午'],[],{}]]])") =
  Ok [JString [0x5514]; JString [0x4E94]; JString [0x5348]].
Proof.
  refine (decode_success_candidates
            (lit "/*API*/_callbacks____x")
            (lit "['SUCCESS',[['m',['唔','五','午'],[],{}]]]")
            (JArray [JArray [JString (u16 "m");
                             JArray [JString [0x5514]; JString [0x4E94];
                                     JString [0x5348]];
                             JArray []; JObject []]])
            [] _ _ _).
  - apply no_paren_check. vm_compute. reflexivity.
  - apply single_line_check. vm_compute. reflexivity.
  - vm_compute. reflexivity.
Defined.

Lemma decode_empty_payload :
  Utils.parseSuggestionsResponse (lit "cb(['SUCCESS',[]])") = Ok [].
Proof. reflexivity. Qed.

(** C3 fails as stated: a callback wrapping a JSON array that starts
    with SUCCESS is rejected as soon as the JSON has a line break in it
    (the dot of the patterns matches no line terminator), and the payload
    is cut at the first opening parenthesis of the text, wherever it is. *)
Lemma decode_multiline_rejected :
  let payload := lit "['SUCCESS'," ++ [10] ++ lit "[['m',['唔']]]]" in
  JSON.parse payload =
    Some (JArray [JString (u16 "SUCCESS");
                  JArray [JArray [JString (u16 "m"); JArray [JString [0x5514]]]]]) /\
  Utils.parseSuggestionsResponse (lit "cb(" ++ payload ++ lit ")") =
    Throw MalformedEnvelope /\
  Utils.parseSuggestionsResponse (lit "/*(c)*/cb(['SUCCESS',[['m',['唔']]]])") =
    Throw MalformedPayload.
Proof. repeat split. Qed.

(** C4.  The decoder's failures: no payload under either pattern is
    MalformedEnvelope; a payload that is not JSON is MalformedPayload; a
    JSON value that is not an array of at least two elements is
    UnexpectedShape; an element 0 other than the string SUCCESS is
    ProviderError with that element; in every other case the decoder
    returns. *)
Theorem decode_errors (text : jsstring) :
  (RegExp.JSONP_MATCH text = None ->
   RegExp.JSONP_ALT_MATCH text = None ->
   Utils.parseSuggestionsResponse text = Throw MalformedEnvelope) /\
  (forall payload,
      Spec.extracted text payload ->
      (JSON.parse payload = None ->
       Utils.parseSuggestionsResponse text = Throw MalformedPayload) /\
      (forall j,
          JSON.parse payload = Some j ->
          (forall els, j = JArray els -> (length els < 2)%nat) ->
          Utils.parseSuggestionsResponse text = Throw UnexpectedShape) /\
      (forall status data rest,
          JSON.parse payload = Some (JArray (status :: data :: rest)) ->
          (status <> JString (u16 "SUCCESS") ->
           Utils.parseSuggestionsResponse text = Throw (ProviderError status)) /\
          (status = JString (u16 "SUCCESS") ->
           exists out, Utils.parseSuggestionsResponse text = Ok out))).
Proof.
  split.
  - intros H1 H2. unfold Utils.parseSuggestionsResponse. now rewrite H1, H2.
  - intros payload Hx. rewrite (decode_payload text payload Hx).
    split; [|split].
    + now intros ->.
    + intros j -> Hj. destruct j as [| | | |[|x [|y els]]|]; try reflexivity.
      specialize (Hj _ eq_refl). simpl in Hj. lia.
    + intros status data rest ->. split.
      * intros Hs. destruct (Utils.isSuccess status) eqn:E; [|reflexivity].
        apply isSuccess_iff in E. contradiction.
      * intros ->. simpl. eauto.
Qed.

(** The four failures and the normal return, each on an example; the
    provider error of the specification's example carries FAILURE. *)
Lemma decode_errors_witness :
  Utils.parseSuggestionsResponse (lit "no payload here") = Throw MalformedEnvelope /\
  Utils.parseSuggestionsResponse (lit "cb(not json)") = Throw MalformedPayload /\
  Utils.parseSuggestionsResponse (lit "cb(['SUCCESS'])") = Throw UnexpectedShape /\
  Utils.parseSuggestionsResponse (lit "(['FAILURE','quota exceeded'])") =
    Throw (ProviderError (JString (u16 "FAILURE"))) /\
  statusMessage (ProviderError (JString (u16 "FAILURE"))) =
    Some (u16 "API returned status: FAILURE") /\
  exists out, Utils.parseSuggestionsResponse (lit "cb(['SUCCESS',7])") = Ok out.
Proof.
  split; [|split; [|split; [|split; [|split]]]].
  - apply (proj1 (decode_errors (lit "no payload here"))); reflexivity.
  - apply (proj2 (decode_errors (lit "cb(not json)")) (lit "not json"));
      [left|]; reflexivity.
  - apply (proj2 (decode_errors (lit "cb(['SUCCESS'])")) (lit "['SUCCESS']")
                 (or_introl eq_refl)) with (j := JArray [JString (u16 "SUCCESS")]).
    + reflexivity.
    + intros els E. inversion E. simpl. lia.
  - apply (proj2 (decode_errors (lit "(['FAILURE','quota exceeded'])"))
                 (lit "['FAILURE','quota exceeded']") (or_introl eq_refl))
      with (data := JString (u16 "quota exceeded")) (rest := []).
    + reflexivity.
    + discriminate.
  - reflexivity.
  - apply (proj2 (decode_errors (lit "cb(['SUCCESS',7])")) (lit "['SUCCESS',7]")
                 (or_introl eq_refl))
      with (status := JString (u16 "SUCCESS")) (data := JNumber (u16 "7"))
           (rest := []); reflexivity.
Defined.

(** ** Pagination *)

Lemma Math_ceil_div_spec (a b : Z) :
  0 < b ->
  (InputTools.Math_ceil_div a b - 1) * b < a <= InputTools.Math_ceil_div a b * b.
Proof.
  intros Hb. unfold InputTools.Math_ceil_div.
  pose proof (Z.div_mod (- a) b ltac:(lia)) as E.
  pose proof (Z.mod_pos_bound (- a) b Hb) as B.
  nia.
Qed.

(** C5.  The pagination engine: the page size is made at least 1, the
    number of pages is the ceiling of totalItems / safePageSize and at
    least 1, the requested page is clamped to the last page, and the
    flags and slice bounds follow; the two hooks of the later revision
    compute the same record. *)
Theorem usePagination_spec (totalItems pageSize requestedPageIndex : Z) :
  0 <= totalItems -> 0 <= requestedPageIndex ->
  let p := InputTools.usePagination totalItems pageSize requestedPageIndex in
  let safePageSize := Z.max 1 pageSize in
  exists ceil,
    (ceil - 1) * safePageSize < totalItems <= ceil * safePageSize /\
    InputTools.totalPages p = Z.max 1 ceil /\
    InputTools.currentPage p =
      Z.min requestedPageIndex (InputTools.totalPages p - 1) /\
    InputTools.hasNextPage p =
      (InputTools.currentPage p <? InputTools.totalPages p - 1) /\
    InputTools.hasPreviousPage p = (InputTools.currentPage p >? 0) /\
    InputTools.startIndex p = InputTools.currentPage p * safePageSize /\
    InputTools.endIndex p = InputTools.startIndex p + safePageSize /\
    0 <= InputTools.currentPage p <= InputTools.totalPages p - 1 /\
    (let (s, t) := InputTools.usePaginationCalculations totalItems pageSize in
     InputTools.usePaginationState requestedPageIndex t s) = p.
Proof.
  intros Ht Hr p safe.
  exists (InputTools.Math_ceil_div totalItems safe).
  split; [apply Math_ceil_div_spec; subst safe; lia|].
  subst p; unfold InputTools.usePagination; fold safe; simpl.
  repeat split; try reflexivity; lia.
Qed.

(** The specification's example: 13 items, 6 per page, page 5 asked. *)
Lemma usePagination_spec_witness :
  let p := InputTools.usePagination 13 6 5 in
  InputTools.totalPages p = 3 /\ InputTools.currentPage p = 2 /\
  InputTools.hasNextPage p = false /\ InputTools.hasPreviousPage p = true /\
  InputTools.startIndex p = 12 /\ InputTools.endIndex p = 18.
Proof.
  destruct (usePagination_spec 13 6 5 ltac:(lia) ltac:(lia))
    as (ceil & Hc & Ht & Hp & Hn & Hv & Hs & He & _ & _).
  cbv zeta in *. change (Z.max 1 6) with 6 in *.
  assert (ceil = 3) by lia. subst ceil. change (Z.max 1 3) with 3 in Ht.
  rewrite Ht in Hp, Hn. change (Z.min 5 (3 - 1)) with 2 in Hp.
  rewrite Hp in Hn, Hv, Hs. rewrite Hs in He.
  repeat split; assumption.
Defined.

Lemma slice_last_page :
  InputTools.slice (map Z.of_nat (seq 0 13)) 12 18 = [12].
Proof. reflexivity. Qed.

(** ** The URL cache *)

Lemma Map_get_In (k : jsstring) (m : Map.t) (v : jsstring) :
  Map.get k m = Some v -> In (k, v) m.
Proof.
  induction m as [|[k' v'] m IH]; simpl; [discriminate|].
  destruct (jsstring_eqb k k') eqn:E.
  - apply jsstring_eqb_eq in E. intros H; inversion H; subst. now left.
  - intros H; right; auto.
Qed.

Lemma Map_set_In (k v : jsstring) (m : Map.t) (kv : jsstring * jsstring) :
  In kv (Map.set k v m) -> In kv m \/ kv = (k, v).
Proof.
  induction m as [|[k' v'] m IH]; simpl.
  - intros [<- | []]; auto.
  - destruct (jsstring_eqb k k') eqn:E; simpl.
    + apply jsstring_eqb_eq in E; subst k'. intros [<- | H]; auto.
    + intros [<- | H]; auto. destruct (IH H); auto.
Qed.

Lemma Map_delete_In (k : jsstring) (m : Map.t) (kv : jsstring * jsstring) :
  In kv (Map.delete k m) -> In kv m.
Proof.
  induction m as [|[k' v'] m IH]; simpl; auto.
  destruct (jsstring_eqb k k'); simpl; intuition.
Qed.

Lemma evict_In (m : Map.t) (kv : jsstring * jsstring) :
  In kv (Utils.evict m) -> In kv m.
Proof.
  unfold Utils.evict. destruct (Utils.MAX_CACHE_SIZE <=? Map.size m); auto.
  destruct (Map.first_key m) as [[|c cs]|]; auto. apply Map_delete_In.
Qed.

Lemma Map_set_absent_length (k v : jsstring) (m : Map.t) :
  Map.get k m = None -> length (Map.set k v m) = S (length m).
Proof.
  induction m as [|[k' v'] m IH]; simpl; auto.
  destruct (jsstring_eqb k k'); [discriminate|]. simpl. auto.
Qed.

Lemma cache_ok_empty : Spec.cache_ok Map.empty.
Proof. intros k v []. Qed.

(** On a cache that holds locators of keys, the builder returns the
    locator of its canonical key, hit or miss, and keeps the cache such. *)
Lemma buildSuggestionsUrl_locator (urlCache : Map.t)
      (english : jsstring) (chinese : option jsstring) :
  Spec.cache_ok urlCache ->
  fst (Utils.buildSuggestionsUrl urlCache english chinese) =
    Spec.locator (Utils.input_of english chinese) /\
  Spec.cache_ok (snd (Utils.buildSuggestionsUrl urlCache english chinese)).
Proof.
  intros Hok. unfold Utils.buildSuggestionsUrl.
  set (key := Utils.input_of english chinese).
  destruct (Map.get key urlCache) as [url|] eqn:G; simpl.
  - split; [|assumption]. symmetry. apply Hok. now apply Map_get_In.
  - unfold Spec.locator.
    destruct (URI.encodeURIComponent key) as [e|] eqn:E; simpl; split; auto.
    intros k v H. apply Map_set_In in H as [H | H].
    + apply Hok. now apply evict_In.
    + inversion H; subst. unfold Spec.locator. now rewrite E.
Qed.

Lemma build_calls_locators (calls : list (jsstring * option jsstring)) :
  forall urlCache,
    Spec.cache_ok urlCache ->
    fst (Utils.build_calls urlCache calls) =
    map (fun c => Spec.locator (Utils.input_of (fst c) (snd c))) calls.
Proof.
  induction calls as [|[english chinese] calls IH]; intros urlCache Hok;
    [reflexivity|].
  cbn [Utils.build_calls].
  destruct (buildSuggestionsUrl_locator urlCache english chinese Hok) as [E1 E2].
  destruct (Utils.buildSuggestionsUrl urlCache english chinese) as [r c'].
  simpl in E1, E2. specialize (IH c' E2).
  destruct (Utils.build_calls c' calls) as [rs final]. simpl in *.
  now rewrite E1, IH.
Qed.

(** C10.  In any sequence of calls of the builder on the module's cache,
    two calls with the same arguments have the same outcome, whatever
    hits and evictions lie between them, and every locator returned is
    the fixed endpoint, the encoded canonical key and the fixed
    parameters ending in the one callback name. *)
Theorem buildSuggestionsUrl_deterministic
        (calls : list (jsstring * option jsstring)) (i j : nat)
        (english : jsstring) (chinese : option jsstring) :
  nth_error calls i = Some (english, chinese) ->
  nth_error calls j = Some (english, chinese) ->
  let results := fst (Utils.build_calls Map.empty calls) in
  nth_error results i = nth_error results j /\
  forall k url,
    nth_error results k = Some (Ok url) ->
    exists encoded,
      url = u16 "https://inputtools.google.com/request?text=" ++ encoded ++
            u16 "&itc=yue-hant-t-i0-und&num=13&cp=0&cs=1&ie=utf-8&oe=utf-8&app=jsapi&cb=_callbacks____raycast".
Proof.
  intros Hi Hj results. subst results.
  rewrite (build_calls_locators calls Map.empty cache_ok_empty).
  split.
  - rewrite !nth_error_map, Hi, Hj. reflexivity.
  - intros k url H. rewrite nth_error_map in H.
    destruct (nth_error calls k) as [[e c]|]; [|discriminate].
    simpl in H. unfold Spec.locator in H.
    destruct (URI.encodeURIComponent (Utils.input_of e c)) as [enc|];
      [|discriminate].
    inversion H. exists enc. reflexivity.
Qed.

Lemma buildSuggestionsUrl_deterministic_witness :
  let calls := [(u16 "nei", Some [0x4F60]); (u16 "hou", None);
                (u16 "nei", Some [0x4F60])] in
  let results := fst (Utils.build_calls Map.empty calls) in
  nth_error results 0 = nth_error results 2.
Proof.
  exact (proj1 (buildSuggestionsUrl_deterministic
                  [(u16 "nei", Some [0x4F60]); (u16 "hou", None);
                   (u16 "nei", Some [0x4F60])]
                  0 2 (u16 "nei") (Some [0x4F60]) eq_refl eq_refl)).
Defined.

Lemma Map_delete_first (k v : jsstring) (m : Map.t) :
  Map.delete k ((k, v) :: m) = m.
Proof. simpl. now rewrite jsstring_eqb_refl. Qed.

(** With no empty key in it, the cache stays within its bound. *)
Lemma buildSuggestionsUrl_bounded (urlCache : Map.t)
      (english : jsstring) (chinese : option jsstring) :
  Spec.cache_bounded urlCache ->
  Utils.input_of english chinese <> [] ->
  Spec.cache_bounded (snd (Utils.buildSuggestionsUrl urlCache english chinese)).
Proof.
  intros [Hs Hk] Hne. unfold Utils.buildSuggestionsUrl.
  set (key := Utils.input_of english chinese) in *.
  destruct (Map.get key urlCache) as [url|] eqn:G; simpl; [now split|].
  destruct (URI.encodeURIComponent key) as [e|]; simpl; [|now split].
  assert (He : Map.size (Utils.evict urlCache) < Utils.MAX_CACHE_SIZE /\
               Forall (fun kv => fst kv <> []) (Utils.evict urlCache) /\
               Map.get key (Utils.evict urlCache) = None).
  { unfold Utils.evict.
    destruct (Z.leb_spec Utils.MAX_CACHE_SIZE (Map.size urlCache)) as [L|L];
      [|auto].
    destruct urlCache as [|[k0 v0] m]; [unfold Map.size in *; simpl in *;
                                        unfold Utils.MAX_CACHE_SIZE in *; lia|].
    cbn [Map.first_key]. inversion Hk as [|? ? Hk0 Hm]; subst. simpl in Hk0.
    destruct k0 as [|c cs]; [contradiction|].
    rewrite Map_delete_first. unfold Map.size in *. simpl length in Hs.
    split; [lia|]. split; [assumption|].
    simpl in G. destruct (jsstring_eqb key (c :: cs)); [discriminate | exact G]. }
  destruct He as (H1 & H2 & H3). split.
  - unfold Map.size in *. rewrite Map_set_absent_length by assumption. lia.
  - apply Forall_forall. intros kv Hin. apply Map_set_In in Hin as [Hin | ->].
    + rewrite Forall_forall in H2. auto.
    + exact Hne.
Qed.

(** After 101 distinct non-empty keys the cache holds 100 entries, the
    first key is gone and the 100 later ones are present. *)
Lemma urlCache_fifo_101 :
  let calls := Spec.numbered_queries 101 in
  let cache := snd (Utils.build_calls Map.empty calls) in
  NoDup (map fst calls) /\
  Map.size cache = 100 /\
  Map.has (u16 "qaa") cache = false /\
  Map.keys cache = map fst (tl calls).
Proof.
  cbv zeta. split; [|vm_compute; repeat split].
  assert (E : nodup (list_eq_dec Z.eq_dec)
                    (map fst (Spec.numbered_queries 101)) =
              map fst (Spec.numbered_queries 101)) by (vm_compute; reflexivity).
  rewrite <- E. apply NoDup_nodup.
Qed.

(** The empty key, which the component never passes (its memo returns
    before the call when the query part is blank).  The empty query
    first and then 100 distinct queries, on a fresh cache: the empty key
    is the oldest entry when the cache is full, the guard
    [if (firstKey)] takes it for no key at all, nothing is evicted, and
    the cache ends with 101 entries, the first-inserted key among
    them. *)
Lemma urlCache_empty_key_never_evicted :
  let calls := ([], None) :: Spec.numbered_queries 100 in
  let cache := snd (Utils.build_calls Map.empty calls) in
  Map.size cache = 101 /\
  Map.has [] cache = true /\
  Map.keys cache = map fst calls.
Proof. vm_compute. repeat split. Qed.

(** ** Encoding the canonical key *)

Lemma chars_cons_single (c : Z) (s : jsstring) :
  isHighSurrogate c = false -> chars (c :: s) = [c] :: chars s.
Proof. intros H. destruct s; simpl; now rewrite ?H. Qed.

Lemma chars_app (a b : jsstring) :
  match b with [] => True | x :: _ => isLowSurrogate x = false end ->
  chars (a ++ b) = chars a ++ chars b.
Proof.
  intros Hb. induction a as [| c | hi lo a IH1 IH2] using chars_ind2.
  - reflexivity.
  - destruct b as [|x b]; [reflexivity|].
    cbn [app chars]. now rewrite Hb, andb_false_r.
  - change (chars ((hi :: lo :: a) ++ b))
      with (if isHighSurrogate hi && isLowSurrogate lo
            then [hi; lo] :: chars (a ++ b)
            else [hi] :: chars ((lo :: a) ++ b)).
    change (chars (hi :: lo :: a))
      with (if isHighSurrogate hi && isLowSurrogate lo
            then [hi; lo] :: chars a else [hi] :: chars (lo :: a)).
    destruct (isHighSurrogate hi && isLowSurrogate lo);
      [rewrite IH1 | rewrite IH2]; reflexivity.
Qed.

Lemma isWellFormed_app (a b : jsstring) :
  match b with [] => True | x :: _ => isLowSurrogate x = false end ->
  URI.isWellFormed (a ++ b) = URI.isWellFormed a && URI.isWellFormed b.
Proof.
  intros H. unfold URI.isWellFormed. now rewrite chars_app, forallb_app.
Qed.

Lemma isWellFormed_cons (c : Z) (s : jsstring) :
  isHighSurrogate c || isLowSurrogate c = false ->
  URI.isWellFormed (c :: s) = URI.isWellFormed s.
Proof.
  intros H. unfold URI.isWellFormed.
  apply orb_false_iff in H as H'. destruct H' as [Hh _].
  rewrite chars_cons_single by exact Hh. simpl. now rewrite H.
Qed.

Lemma isWellFormed_no_surrogate (s : jsstring) :
  Forall (fun c => isHighSurrogate c || isLowSurrogate c = false) s ->
  URI.isWellFormed s = true.
Proof.
  induction 1 as [|c s Hc _ IH]; [reflexivity|].
  now rewrite isWellFormed_cons.
Qed.

(** A well-formed string can be encoded. *)
Lemma encodeURIComponent_wellformed (s : jsstring) :
  URI.isWellFormed s = true -> exists e, URI.encodeURIComponent s = Some e.
Proof.
  unfold URI.isWellFormed, URI.encodeURIComponent.
  induction s as [| c | hi lo s IH1 IH2] using chars_ind2.
  - intros _. now exists [].
  - simpl. rewrite andb_true_r, negb_true_iff. intros ->.
    destruct (URI.isUnreserved c); eauto.
  - change (chars (hi :: lo :: s))
      with (if isHighSurrogate hi && isLowSurrogate lo
            then [hi; lo] :: chars s else [hi] :: chars (lo :: s)).
    destruct (isHighSurrogate hi && isLowSurrogate lo).
    + cbn [forallb URI.encodeChars URI.encodeChar]. intros H.
      destruct (IH1 H) as [e ->]. eauto.
    + cbn [forallb URI.encodeChars URI.encodeChar]. intros H.
      apply andb_true_iff in H as [Hh H]. apply negb_true_iff in Hh.
      destruct (IH2 H) as [e ->]. rewrite Hh.
      destruct (URI.isUnreserved hi); eauto.
Qed.

Lemma trimStart_nil (s : jsstring) :
  trimStart s = [] -> Forall (fun c => isWhiteSpace c = true) s.
Proof.
  induction s as [|c s IH]; simpl; [constructor|].
  destruct (isWhiteSpace c) eqn:E; [|discriminate]. auto.
Qed.

Lemma trimStart_whitespace (s : jsstring) :
  Forall (fun c => isWhiteSpace c = true) (trimStart s) ->
  Forall (fun c => isWhiteSpace c = true) s.
Proof.
  induction s as [|c s IH]; simpl; auto.
  destruct (isWhiteSpace c) eqn:E; auto.
Qed.

(** A string that trims to nothing is white space throughout. *)
Lemma trim_nil (s : jsstring) :
  trim s = [] -> Forall (fun c => isWhiteSpace c = true) s.
Proof.
  unfold trim. intros H.
  assert (H' : trimStart (rev (trimStart s)) = []).
  { destruct (trimStart (rev (trimStart s))) as [|x l]; [reflexivity|].
    simpl in H. destruct (rev l); discriminate. }
  apply trimStart_nil in H'. apply trimStart_whitespace.
  rewrite Forall_forall in *. intros c Hc. apply H'. now apply -> in_rev.
Qed.

Lemma input_of_wellformed (english : jsstring) (chinese : option jsstring) :
  URI.isWellFormed english = true ->
  (forall c, chinese = Some c -> URI.isWellFormed c = true) ->
  URI.isWellFormed (Utils.input_of english chinese) = true.
Proof.
  intros He Hc. destruct chinese as [[|c cs]|]; simpl; auto.
  specialize (Hc _ eq_refl).
  change (124 :: c :: cs ++ 44 :: english)
    with (124 :: (c :: cs) ++ 44 :: english).
  rewrite isWellFormed_cons by reflexivity.
  rewrite isWellFormed_app by reflexivity.
  rewrite Hc, isWellFormed_cons by reflexivity. exact He.
Qed.

Lemma Map_get_None (k : jsstring) (m : Map.t) :
  ~ In k (Map.keys m) -> Map.get k m = None.
Proof.
  unfold Map.keys. induction m as [|[k' v'] m IH]; simpl; [reflexivity|].
  intros H. destruct (jsstring_eqb k k') eqn:E.
  - apply jsstring_eqb_eq in E. subst. tauto.
  - apply IH. tauto.
Qed.

Lemma Map_set_absent_keys (k v : jsstring) (m : Map.t) :
  Map.get k m = None -> Map.keys (Map.set k v m) = Map.keys m ++ [k].
Proof.
  unfold Map.keys. induction m as [|[k' v'] m IH]; simpl; [reflexivity|].
  destruct (jsstring_eqb k k'); [discriminate|]. intros H. simpl.
  now rewrite IH.
Qed.

Lemma evict_keys (m : Map.t) :
  Forall (fun k => k <> []) (Map.keys m) ->
  Map.keys (Utils.evict m) =
  if Utils.MAX_CACHE_SIZE <=? Map.size m then tl (Map.keys m) else Map.keys m.
Proof.
  intros H. unfold Utils.evict.
  destruct (Utils.MAX_CACHE_SIZE <=? Map.size m); [|reflexivity].
  destruct m as [|[k v] m]; [reflexivity|].
  inversion H as [|? ? Hk _]; subst. cbn [Map.first_key].
  destruct k as [|c cs]; [contradiction|].
  now rewrite Map_delete_first.
Qed.

(** A miss appends the key, after dropping the oldest key of a full
    cache. *)
Lemma buildSuggestionsUrl_miss_keys (urlCache : Map.t)
      (english : jsstring) (chinese : option jsstring) :
  Forall (fun k => k <> []) (Map.keys urlCache) ->
  ~ In (Utils.input_of english chinese) (Map.keys urlCache) ->
  URI.isWellFormed (Utils.input_of english chinese) = true ->
  Map.keys (snd (Utils.buildSuggestionsUrl urlCache english chinese)) =
  (if Utils.MAX_CACHE_SIZE <=? Map.size urlCache
   then tl (Map.keys urlCache) else Map.keys urlCache)
  ++ [Utils.input_of english chinese].
Proof.
  intros Hk Hin Hw. unfold Utils.buildSuggestionsUrl.
  rewrite (Map_get_None _ _ Hin).
  destruct (encodeURIComponent_wellformed _ Hw) as [e ->]. simpl.
  assert (Hev : Map.get (Utils.input_of english chinese)
                        (Utils.evict urlCache) = None).
  { apply Map_get_None. rewrite evict_keys by assumption.
    destruct (Utils.MAX_CACHE_SIZE <=? Map.size urlCache); [|assumption].
    destruct (Map.keys urlCache); simpl in *; tauto. }
  rewrite Map_set_absent_keys by exact Hev.
  now rewrite evict_keys by assumption.
Qed.

(** After a run of misses on distinct keys, none of them empty, the
    cache holds the latest 100 of all the keys inserted, in insertion
    order. *)
Lemma build_calls_fifo (calls : list (jsstring * option jsstring)) :
  forall urlCache,
    let ks := map (fun c => Utils.input_of (fst c) (snd c)) calls in
    (length (Map.keys urlCache) <= 100)%nat ->
    NoDup (Map.keys urlCache ++ ks) ->
    Forall (fun k => k <> []) (Map.keys urlCache ++ ks) ->
    Forall (fun k => URI.isWellFormed k = true) ks ->
    Map.keys (snd (Utils.build_calls urlCache calls)) =
    skipn (length (Map.keys urlCache ++ ks) - 100) (Map.keys urlCache ++ ks).
Proof.
  induction calls as [|[english chinese] calls IH]; intros urlCache ks.
  - subst ks. simpl. intros Hl _ _ _. rewrite app_nil_r.
    replace (length (Map.keys urlCache) - 100)%nat with 0%nat by lia.
    reflexivity.
  - subst ks. cbn [map fst snd]. set (k := Utils.input_of english chinese).
    set (ks := map (fun c => Utils.input_of (fst c) (snd c)) calls).
    intros Hl Hnd Hne Hwf.
    assert (Hkc : Forall (fun k => k <> []) (Map.keys urlCache))
      by (apply Forall_app in Hne; tauto).
    assert (Hin : ~ In k (Map.keys urlCache)).
    { intros Hin. apply NoDup_remove_2 in Hnd. apply Hnd.
      apply in_or_app; now left. }
    inversion Hwf as [|? ? Hwk Hwks]; subst.
    pose proof (buildSuggestionsUrl_miss_keys urlCache english chinese
                                              Hkc Hin Hwk) as E.
    fold k in E. cbn [Utils.build_calls].
    destruct (Utils.buildSuggestionsUrl urlCache english chinese) as [r c'].
    cbn [snd] in E.
    specialize (IH c'). cbv zeta in IH. fold ks in IH.
    destruct (Utils.build_calls c' calls) as [rs final]. cbn [snd] in *.
    unfold Map.size, Utils.MAX_CACHE_SIZE in E.
    assert (El : length (Map.keys urlCache) = length urlCache)
      by (unfold Map.keys; apply length_map).
    destruct (Z.leb_spec 100 (Z.of_nat (length urlCache))) as [L|L].
    + destruct (Map.keys urlCache) as [|x t] eqn:Ek;
        [simpl in El; lia|].
      simpl in E. simpl length in Hl, El.
      assert (Ht : length t = 99%nat) by lia.
      rewrite IH; try rewrite E.
      * rewrite <- app_assoc. cbn [app].
        rewrite !length_app. cbn [length]. rewrite length_app. cbn [length].
        rewrite Ht.
        replace (99 + S (length ks) - 100)%nat with (length ks) by lia.
        replace (S (99 + S (length ks)) - 100)%nat with (S (length ks)) by lia.
        reflexivity.
      * rewrite length_app. simpl. lia.
      * rewrite <- app_assoc. cbn [app] in *. now inversion Hnd.
      * rewrite <- app_assoc. cbn [app] in *. now inversion Hne.
      * assumption.
    + rewrite IH; try rewrite E.
      * now rewrite <- !app_assoc.
      * rewrite length_app. simpl. lia.
      * now rewrite <- app_assoc.
      * now rewrite <- app_assoc.
      * assumption.
Qed.

(** X25.  FIFO, for keys that are not empty: after a run of misses on distinct
    keys, the cache holds the latest 100 of all the keys inserted, in
    insertion order. *)
Lemma urlCache_fifo (calls : list (jsstring * option jsstring)) :
  forall urlCache,
    let ks := map (fun c => Utils.input_of (fst c) (snd c)) calls in
    (length (Map.keys urlCache) <= 100)%nat ->
    NoDup (Map.keys urlCache ++ ks) ->
    Forall (fun k => k <> []) (Map.keys urlCache ++ ks) ->
    Forall (fun k => URI.isWellFormed k = true) ks ->
    Map.keys (snd (Utils.build_calls urlCache calls)) =
    skipn (length (Map.keys urlCache ++ ks) - 100) (Map.keys urlCache ++ ks).
Proof.
  exact (build_calls_fifo calls).
Qed.

Lemma cache_bounded_empty : Spec.cache_bounded Map.empty.
Proof. split; [vm_compute; discriminate | constructor]. Qed.

Lemma build_calls_bounded (calls : list (jsstring * option jsstring)) :
  forall urlCache,
    Spec.cache_bounded urlCache ->
    Forall (fun c => Utils.input_of (fst c) (snd c) <> []) calls ->
    Spec.cache_bounded (snd (Utils.build_calls urlCache calls)).
Proof.
  induction calls as [|[english chinese] calls IH]; intros urlCache Hb Hk;
    [exact Hb|].
  inversion Hk as [|? ? Hk1 Hk2]; subst. cbn [Utils.build_calls].
  pose proof (buildSuggestionsUrl_bounded urlCache english chinese Hb Hk1) as B.
  destruct (Utils.buildSuggestionsUrl urlCache english chinese) as [r c'].
  specialize (IH c' B Hk2).
  now destruct (Utils.build_calls c' calls).
Qed.

Lemma nonempty_keys_check (calls : list (jsstring * option jsstring)) :
  forallb (fun c => match Utils.input_of (fst c) (snd c) with
                    | [] => false
                    | _ :: _ => true
                    end) calls = true ->
  Forall (fun c => Utils.input_of (fst c) (snd c) <> []) calls.
Proof.
  intros H. apply Forall_forall. intros c Hc.
  rewrite forallb_forall in H. specialize (H c Hc).
  destruct (Utils.input_of (fst c) (snd c)); [discriminate H | discriminate].
Qed.

Lemma nonempty_check (l : list jsstring) :
  forallb (fun k => match k with [] => false | _ :: _ => true end) l = true ->
  Forall (fun k => k <> []) l.
Proof.
  intros H. apply Forall_forall. intros k Hk.
  rewrite forallb_forall in H. specialize (H k Hk).
  destruct k; [discriminate H | discriminate].
Qed.

Lemma wellformed_check (l : list jsstring) :
  forallb URI.isWellFormed l = true ->
  Forall (fun k => URI.isWellFormed k = true) l.
Proof.
  intros H. apply Forall_forall. intros k Hk.
  rewrite forallb_forall in H. now apply H.
Qed.

Lemma In_check (k : jsstring) (l : list jsstring) :
  existsb (jsstring_eqb k) l = true -> In k l.
Proof.
  intros H. apply existsb_exists in H as (x & Hx & E).
  apply jsstring_eqb_eq in E. now subst.
Qed.

Lemma NoDup_check (l : list jsstring) :
  nodup (list_eq_dec Z.eq_dec) l = l -> NoDup l.
Proof. intros E. rewrite <- E. apply NoDup_nodup. Qed.

Lemma Map_get_keys (k : jsstring) (m : Map.t) :
  In k (Map.keys m) -> exists v, Map.get k m = Some v.
Proof.
  unfold Map.keys. induction m as [|[k' v'] m IH]; simpl; [tauto|].
  intros H. destruct (jsstring_eqb k k') eqn:E; [eauto|].
  apply IH. destruct H as [H | H]; [|exact H].
  subst k'. rewrite jsstring_eqb_refl in E. discriminate.
Qed.

Lemma cache_bounded_keys (m : Map.t) :
  Spec.cache_bounded m -> Forall (fun k => k <> []) (Map.keys m).
Proof. intros [_ H]. unfold Map.keys. now apply Forall_map. Qed.

(** C9.  The cache of locators on the keys the program produces, which
    are not empty (the builder is called with a query that is not blank).
    In a sequence of calls on the fresh cache: the cache holds at most
    100 entries after every call; a call whose key is in the cache
    leaves the cache as it is, so that the order of the keys is the
    order of insertion and not of use; a call that inserts a key when
    the cache holds 100 entries drops the oldest-inserted key and adds
    the new one last; after distinct keys the cache holds the latest 100
    of them in insertion order, and after 101 distinct keys the first
    one is gone and the 100 latest are all present. *)
Theorem urlCache_bounded_fifo (calls : list (jsstring * option jsstring)) :
  let keys := map (fun c => Utils.input_of (fst c) (snd c)) calls in
  Forall (fun c => Utils.input_of (fst c) (snd c) <> []) calls ->
  (forall k,
     Map.size (snd (Utils.build_calls Map.empty (firstn k calls))) <=
     Utils.MAX_CACHE_SIZE) /\
  (forall k english chinese,
     let urlCache := snd (Utils.build_calls Map.empty (firstn k calls)) in
     let key := Utils.input_of english chinese in
     (In key (Map.keys urlCache) ->
      snd (Utils.buildSuggestionsUrl urlCache english chinese) = urlCache) /\
     (~ In key (Map.keys urlCache) ->
      URI.isWellFormed key = true ->
      Map.size urlCache = Utils.MAX_CACHE_SIZE ->
      Map.keys (snd (Utils.buildSuggestionsUrl urlCache english chinese)) =
        tl (Map.keys urlCache) ++ [key])) /\
  (NoDup keys ->
   Forall (fun k => URI.isWellFormed k = true) keys ->
   let urlCache := snd (Utils.build_calls Map.empty calls) in
   Map.keys urlCache = skipn (length keys - 100) keys /\
   (length keys = 101%nat ->
    Map.size urlCache = 100 /\
    Map.has (hd [] keys) urlCache = false /\
    Forall (fun k => Map.has k urlCache = true) (tl keys))).
Proof.
  intros keys Hne.
  assert (Hb : forall k,
             Spec.cache_bounded
               (snd (Utils.build_calls Map.empty (firstn k calls)))).
  { intros k.
    apply (build_calls_bounded (firstn k calls) Map.empty cache_bounded_empty).
    apply Forall_forall. intros c Hc. rewrite Forall_forall in Hne.
    apply Hne. revert Hc. clear. revert calls.
    induction k; intros [|x calls]; simpl; intuition. }
  split; [|split].
  - intros k. apply (Hb k).
  - intros k english chinese urlCache key. split.
    + intros Hin. destruct (Map_get_keys _ _ Hin) as [v G].
      unfold Utils.buildSuggestionsUrl. fold key. now rewrite G.
    + intros Hin Hw Hs.
      rewrite (buildSuggestionsUrl_miss_keys urlCache english chinese
                 (cache_bounded_keys _ (Hb k)) Hin Hw).
      fold key. rewrite Hs, Z.leb_refl. reflexivity.
  - intros Hnd Hwf urlCache.
    assert (F : Map.keys urlCache = skipn (length keys - 100) keys).
    { apply (build_calls_fifo calls Map.empty); simpl; auto; try lia.
      now apply Forall_map. }
    split; [exact F|]. intros Hl. rewrite Hl in F.
    change (101 - 100)%nat with 1%nat in F.
    clearbody keys. destruct keys as [|k0 t]; [discriminate Hl|].
    cbn [skipn] in F. cbn [hd tl]. simpl in Hl. split; [|split].
    + unfold Map.size. replace (length urlCache) with (length (Map.keys urlCache))
        by (unfold Map.keys; apply length_map).
      rewrite F. lia.
    + unfold Map.has. rewrite Map_get_None; [reflexivity|].
      rewrite F. now inversion Hnd.
    + apply Forall_forall. intros k Hk. unfold Map.has.
      rewrite <- F in Hk. now destruct (Map_get_keys _ _ Hk) as [v ->].
Qed.

(** The queries qaa, qab, ... up to the 101st, qdw, on a fresh cache:
    the cache holds 100 entries, qaa is gone and qdw is present. *)
Lemma urlCache_bounded_fifo_witness :
  let urlCache := snd (Utils.build_calls Map.empty (Spec.numbered_queries 101)) in
  Map.size urlCache = 100 /\
  Map.has (u16 "qaa") urlCache = false /\
  Map.has (u16 "qdw") urlCache = true.
Proof.
  cbv zeta.
  destruct (urlCache_bounded_fifo (Spec.numbered_queries 101))
    as (_ & _ & H).
  { apply nonempty_keys_check. vm_compute. reflexivity. }
  destruct H as (_ & H).
  { apply NoDup_check. vm_compute. reflexivity. }
  { apply wellformed_check. vm_compute. reflexivity. }
  destruct (H eq_refl) as (S & A & P).
  split; [exact S|]. split; [exact A|].
  rewrite Forall_forall in P. apply P. apply In_check. vm_compute. reflexivity.
Defined.

(** C2, as the code has it.  The builder has no check of its query and
    no error for it.  For a query that is empty after trimming, with or
    without retained context (well-formed, so that it can be encoded),
    the canonical key can be encoded and the builder returns: on a hit
    the locator cached for the key, leaving the cache as it is; on a
    miss the template around the encoded key, which it stores under the
    key after the eviction step.  On a cache that holds locators of
    keys, as the module's cache does, that is the template around the
    encoded key in both cases.  The guard is the caller's: for a settled
    buffer with such a query part the memo of the component is the empty
    string and the builder is not called, the cache staying as it is. *)
Theorem buildSuggestionsUrl_blank_query (urlCache : Map.t)
        (english : jsstring) (chinese : option jsstring) :
  trim english = [] ->
  (forall c, chinese = Some c -> URI.isWellFormed c = true) ->
  (exists encoded,
     URI.encodeURIComponent (Utils.input_of english chinese) = Some encoded /\
     Utils.buildSuggestionsUrl urlCache english chinese =
       (match Map.get (Utils.input_of english chinese) urlCache with
        | Some cached => (Ok cached, urlCache)
        | None =>
            (Ok (Utils.url_of encoded),
             Map.set (Utils.input_of english chinese) (Utils.url_of encoded)
                     (Utils.evict urlCache))
        end) /\
     (Spec.cache_ok urlCache ->
      fst (Utils.buildSuggestionsUrl urlCache english chinese) =
        Ok (u16 "https://inputtools.google.com/request?text=" ++ encoded ++
            u16 "&itc=yue-hant-t-i0-und&num=13&cp=0&cs=1&ie=utf-8&oe=utf-8&app=jsapi&cb=_callbacks____raycast"))) /\
  (forall re debounced,
     Utils.english (fst (Utils.separateChineseAndEnglish re debounced)) =
       english ->
     fst (fst (InputTools.suggestionsUrl re urlCache debounced)) = Ok [] /\
     snd (InputTools.suggestionsUrl re urlCache debounced) = urlCache).
Proof.
  intros Ht Hc. split.
  - destruct (encodeURIComponent_wellformed (Utils.input_of english chinese))
      as [e He].
    { apply input_of_wellformed; [|assumption].
      apply isWellFormed_no_surrogate.
      apply trim_nil in Ht. rewrite Forall_forall in *.
      intros c Hin. apply whitespace_not_surrogate; auto. }
    exists e. split; [exact He|]. split.
    + unfold Utils.buildSuggestionsUrl. rewrite He.
      destruct (Map.get (Utils.input_of english chinese) urlCache);
        reflexivity.
    + intros Hok.
      rewrite (proj1 (buildSuggestionsUrl_locator urlCache english chinese Hok)).
      unfold Spec.locator. rewrite He. reflexivity.
  - intros re debounced E. unfold InputTools.suggestionsUrl.
    destruct (trim debounced); [split; reflexivity|].
    destruct (Utils.separateChineseAndEnglish re debounced) as [sep re'].
    simpl in E. rewrite E, Ht. split; reflexivity.
Qed.

(** Two blanks as the query, with retained context, on a fresh cache:
    the builder returns the locator of the key and stores it; the
    component, for the buffer that has this query part, builds none. *)
Lemma buildSuggestionsUrl_blank_query_witness :
  trim (u16 "  ") = [] /\
  Utils.buildSuggestionsUrl Map.empty (u16 "  ") (Some [0x4F60]) =
    (Ok (u16 "https://inputtools.google.com/request?text=%7C%E4%BD%A0%2C%20%20&itc=yue-hant-t-i0-und&num=13&cp=0&cs=1&ie=utf-8&oe=utf-8&app=jsapi&cb=_callbacks____raycast"),
     [([124; 0x4F60; 44; 32; 32],
       u16 "https://inputtools.google.com/request?text=%7C%E4%BD%A0%2C%20%20&itc=yue-hant-t-i0-und&num=13&cp=0&cs=1&ie=utf-8&oe=utf-8&app=jsapi&cb=_callbacks____raycast")]) /\
  InputTools.suggestionsUrl Utils.regex_init Map.empty ([0x4F60; 32; 32]) =
    (Ok [], Utils.regex_init, Map.empty).
Proof.
  split; [reflexivity|].
  destruct (buildSuggestionsUrl_blank_query
              Map.empty (u16 "  ") (Some [0x4F60]) eq_refl
              (fun c H => f_equal
                            (fun o => match o with
                                      | Some x => URI.isWellFormed x
                                      | None => true
                                      end) (eq_sym H)))
    as [(encoded & He & Hb & _) Hg].
  split.
  - rewrite Hb. vm_compute in He. injection He as <-. reflexivity.
  - destruct (Hg Utils.regex_init [0x4F60; 32; 32] eq_refl) as [H1 H2].
    destruct (InputTools.suggestionsUrl Utils.regex_init Map.empty
                                        [0x4F60; 32; 32])
      as [[r re] c] eqn:E.
    simpl in H1, H2. subst r c. f_equal. f_equal.
    vm_compute in E. now injection E as <-.
Defined.

(** C2 fails as stated: the empty query, and a blank one with retained
    context, each get a locator from the builder. *)
Lemma buildSuggestionsUrl_empty_query_returns :
  trim [] = [] /\
  fst (Utils.buildSuggestionsUrl Map.empty [] None) =
    Ok (u16 "https://inputtools.google.com/request?text=&itc=yue-hant-t-i0-und&num=13&cp=0&cs=1&ie=utf-8&oe=utf-8&app=jsapi&cb=_callbacks____raycast") /\
  trim (u16 " ") = [] /\
  fst (Utils.buildSuggestionsUrl Map.empty (u16 " ") (Some [0x4F60])) =
    Ok (u16 "https://inputtools.google.com/request?text=%7C%E4%BD%A0%2C%20&itc=yue-hant-t-i0-und&num=13&cp=0&cs=1&ie=utf-8&oe=utf-8&app=jsapi&cb=_callbacks____raycast").
Proof. repeat split. Qed.

(** ** The buffer-change event *)

Lemma SELECTION_from_cons (acc : jsstring) (c x : Z) (rest : jsstring) :
  RegExp.SELECTION_from acc (c :: x :: rest) =
  if isLineTerminator c then None
  else RegExp.SELECTION_from (acc ++ [c]) (x :: rest).
Proof. reflexivity. Qed.

Lemma SELECTION_from_digit (base : jsstring) (d : Z) :
  Forall (fun c => isLineTerminator c = false) base ->
  RegExp.isSelectionKey d = true ->
  forall acc, RegExp.SELECTION_from acc (base ++ [d]) = Some (acc ++ base, d).
Proof.
  intros H Hd. induction H as [|c base Hc _ IH]; intros acc.
  - simpl. now rewrite Hd, app_nil_r.
  - change ((c :: base) ++ [d]) with (c :: (base ++ [d])).
    specialize (IH (acc ++ [c])).
    destruct (base ++ [d]) as [|x rest] eqn:E; [now destruct base|].
    rewrite SELECTION_from_cons, Hc, IH, <- app_assoc. reflexivity.
Qed.

(** A text that is a single-line base followed by a control key matches
    the selection pattern, with the base and the key as its groups. *)
Lemma SELECTION_REGEX_digit (base : jsstring) (d : Z) :
  Forall (fun c => isLineTerminator c = false) base ->
  RegExp.isSelectionKey d = true ->
  RegExp.SELECTION_REGEX (base ++ [d]) = Some (base, d).
Proof.
  intros H Hd. unfold RegExp.SELECTION_REGEX. now rewrite SELECTION_from_digit.
Qed.

Lemma selection_digit_cases (n : Z) :
  1 <= n <= 6 ->
  RegExp.isSelectionKey (48 + n) = true /\
  InputTools.NUMERIC_KEYS_has [48 + n] = true /\
  isWhiteSpace (48 + n) = false /\
  isNumeric (48 + n) = true.
Proof.
  intros H.
  assert (E : n = 1 \/ n = 2 \/ n = 3 \/ n = 4 \/ n = 5 \/ n = 6) by lia.
  destruct E as [-> | [-> | [-> | [-> | [-> | ->]]]]]; repeat split.
Qed.

Lemma last_char (base : jsstring) (d : Z) :
  skipn (length (base ++ [d]) - 1) (base ++ [d]) = [d].
Proof.
  rewrite length_app. simpl length.
  replace (length base + 1 - 1)%nat with (length base) by lia.
  apply skipn_app_length.
Qed.

Lemma trim_digit (base : jsstring) (d : Z) :
  isWhiteSpace d = false -> exists c s, trim (base ++ [d]) = c :: s.
Proof.
  intros Hd. destruct (trim (base ++ [d])) as [|c s] eqn:E; [|eauto].
  apply trim_nil in E. rewrite Forall_forall in E.
  assert (Hin : In d (base ++ [d])) by (apply in_or_app; right; now left).
  specialize (E d Hin). congruence.
Qed.

Lemma number_from_nth (l : list jsstring) :
  forall i k,
    nth_error (InputTools.number_from i l) k =
    option_map (fun t => {| InputTools.text := t;
                            InputTools.index := i + Z.of_nat k + 1 |})
               (nth_error l k).
Proof.
  induction l as [|t l IH]; intros i [|k]; simpl; try reflexivity.
  - do 2 f_equal. lia.
  - rewrite IH. destruct (nth_error l k); simpl; [|reflexivity].
    do 2 f_equal. lia.
Qed.

Lemma slice_nil {A : Type} (a b : Z) : InputTools.slice (@nil A) a b = [].
Proof. unfold InputTools.slice. now rewrite skipn_nil, firstn_nil. Qed.

(** The displayed candidates are the current page's slice of the
    candidate list, numbered from 1. *)
Lemma paginatedSuggestions_slice (st : InputTools.State) :
  InputTools.paginatedSuggestions st =
  InputTools.number_from 0
    (InputTools.slice (InputTools.suggestions st)
                      (InputTools.startIndex (InputTools.pagination st))
                      (InputTools.endIndex (InputTools.pagination st))).
Proof.
  unfold InputTools.paginatedSuggestions.
  destruct (InputTools.suggestions st) eqn:E; [|reflexivity].
  now rewrite slice_nil.
Qed.

Lemma paginatedSuggestions_nth (st : InputTools.State) (k : nat) :
  nth_error (InputTools.paginatedSuggestions st) k =
  option_map (fun t => {| InputTools.text := t;
                          InputTools.index := Z.of_nat k + 1 |})
    (nth_error
       (InputTools.slice (InputTools.suggestions st)
                         (InputTools.startIndex (InputTools.pagination st))
                         (InputTools.endIndex (InputTools.pagination st))) k).
Proof. now rewrite paginatedSuggestions_slice, number_from_nth. Qed.

(** What the handler of numeric actions does with a single-line base
    followed by a digit from 1 to 6. *)
Lemma handleNumericAction_select (st : InputTools.State)
      (base : jsstring) (n : Z) :
  Forall (fun c => isLineTerminator c = false) base ->
  1 <= n <= 6 ->
  InputTools.handleNumericAction st (base ++ [48 + n]) =
  match nth_error (InputTools.paginatedSuggestions st) (Z.to_nat (n - 1)) with
  | Some selectedSuggestion =>
      (true, InputTools.handleSuggestionSelect st selectedSuggestion)
  | None => (false, st)
  end.
Proof.
  intros Hb Hn. destruct (selection_digit_cases n Hn) as (Hk & Hh & _ & _).
  unfold InputTools.handleNumericAction.
  rewrite last_char, Hh, SELECTION_REGEX_digit by assumption. cbn [negb].
  replace (48 + n - 48) with n by lia.
  replace ((1 <=? n) && (n <=? 6)) with true
    by (symmetry; apply andb_true_iff; split; apply Z.leb_le; lia).
  destruct (nth_error (InputTools.paginatedSuggestions st) (Z.to_nat (n - 1)))
    eqn:E.
  - replace (n - 1 <? Z.of_nat (length (InputTools.paginatedSuggestions st)))
      with true; [reflexivity|].
    symmetry. apply Z.ltb_lt.
    assert (Z.to_nat (n - 1) < length (InputTools.paginatedSuggestions st))%nat
      by (apply nth_error_Some; congruence).
    lia.
  - now destruct (n - 1 <? _).
Qed.

Lemma handleSearchTextChange_digit (st : InputTools.State)
      (base : jsstring) (n : Z) :
  Forall (fun c => isLineTerminator c = false) base ->
  1 <= n <= 6 ->
  InputTools.handleSearchTextChange st (base ++ [48 + n]) =
  match nth_error (InputTools.paginatedSuggestions st) (Z.to_nat (n - 1)) with
  | Some selectedSuggestion =>
      InputTools.handleSuggestionSelect st selectedSuggestion
  | None =>
      let (sep, re) :=
        Utils.separateChineseAndEnglish (InputTools.regex st) (base ++ [48 + n]) in
      InputTools.setSearchText (Utils.chinese sep ++ Utils.english sep)
                               (InputTools.setRegex re st)
  end.
Proof.
  intros Hb Hn. destruct (selection_digit_cases n Hn) as (_ & _ & Hw & _).
  unfold InputTools.handleSearchTextChange.
  destruct (trim_digit base (48 + n) Hw) as (c & s & ->).
  rewrite handleNumericAction_select by assumption.
  now destruct (nth_error (InputTools.paginatedSuggestions st) (Z.to_nat (n - 1))).
Qed.

(** C6.  A buffer-change event whose text is a single-line base
    followed by a digit n from 1 to 6, when position n exists in the
    current page's slice of the candidates: the buffer becomes the CJK
    characters of the buffer as it stood, followed by the candidate's
    text as it is; the has-selected flag is set; the candidate list is
    emptied in the same step; page, debounced text and locator are left
    alone. *)
Theorem selection_commits_candidate (st : InputTools.State)
        (base : jsstring) (n : Z) (candidate : jsstring) :
  Utils.CHINESE_lastIndex (InputTools.regex st) = 0%nat ->
  Forall (fun c => isLineTerminator c = false) base ->
  1 <= n <= 6 ->
  nth_error
    (InputTools.slice (InputTools.suggestions st)
                      (InputTools.startIndex (InputTools.pagination st))
                      (InputTools.endIndex (InputTools.pagination st)))
    (Z.to_nat (n - 1)) = Some candidate ->
  let st' := InputTools.handleSearchTextChange st (base ++ [48 + n]) in
  InputTools.searchText st' =
    Spec.retained (InputTools.searchText st) ++ candidate /\
  InputTools.hasSelectedSuggestion st' = true /\
  InputTools.suggestions st' = [] /\
  InputTools.currentPageState st' = InputTools.currentPageState st /\
  InputTools.debouncedSearchText st' = InputTools.debouncedSearchText st /\
  InputTools.suggestionsUrlMemo st' = InputTools.suggestionsUrlMemo st.
Proof.
  intros Hre Hb Hn Hc st'. subst st'.
  rewrite handleSearchTextChange_digit by assumption.
  rewrite paginatedSuggestions_nth, Hc. cbn [option_map].
  unfold InputTools.handleSuggestionSelect.
  destruct (regex_separate_chinese (InputTools.regex st)
                                   (InputTools.searchText st) Hre) as [E _].
  cbv zeta in E.
  destruct (Utils.separateChineseAndEnglish (InputTools.regex st)
                                            (InputTools.searchText st))
    as [sep re].
  simpl in E. simpl. rewrite E. repeat split.
Qed.

(** The specification's example: the buffer nei, five candidates or
    more of which the fifth is U+4F60, and the text nei5. *)
Lemma selection_commits_candidate_witness :
  let st := InputTools.showing (u16 "nei")
              [[0x5462]; [0x5C3C]; [0x59AE]; [0x6CE5]; [0x4F60]; [0x81A9]] in
  InputTools.searchText (InputTools.handleSearchTextChange st (u16 "nei5")) =
    [0x4F60].
Proof.
  exact (proj1 (selection_commits_candidate
                  (InputTools.showing (u16 "nei")
                     [[0x5462]; [0x5C3C]; [0x59AE]; [0x6CE5]; [0x4F60]; [0x81A9]])
                  (u16 "nei") 5 [0x4F60]
                  eq_refl
                  (single_line_check (u16 "nei") eq_refl)
                  (conj (Zle_bool_imp_le 1 5 eq_refl) (Zle_bool_imp_le 5 6 eq_refl))
                  eq_refl)).
Defined.

(** Both regular expressions' states after any event keep the CJK regex
    at rest. *)
Lemma handleSearchTextChange_regex (st : InputTools.State) (text : jsstring) :
  Utils.CHINESE_lastIndex (InputTools.regex st) = 0%nat ->
  Utils.CHINESE_lastIndex
    (InputTools.regex (InputTools.handleSearchTextChange st text)) = 0%nat.
Proof.
  intros H. unfold InputTools.handleSearchTextChange.
  set (st1 := match trim text with
              | [] => InputTools.setHasSelectedSuggestion false st
              | _ :: _ => st
              end).
  assert (H1 : Utils.CHINESE_lastIndex (InputTools.regex st1) = 0%nat)
    by (subst st1; destruct (trim text); exact H).
  clearbody st1. clear H st.
  assert (Hsel : forall sg,
             Utils.CHINESE_lastIndex
               (InputTools.regex (InputTools.handleSuggestionSelect st1 sg)) = 0%nat).
  { intros sg. unfold InputTools.handleSuggestionSelect.
    destruct (regex_separate_chinese (InputTools.regex st1)
                                     (InputTools.searchText st1) H1) as [_ E].
    cbv zeta in E.
    destruct (Utils.separateChineseAndEnglish (InputTools.regex st1)
                                              (InputTools.searchText st1)).
    exact E. }
  assert (Hnum : forall b st2,
             InputTools.handleNumericAction st1 text = (b, st2) ->
             Utils.CHINESE_lastIndex (InputTools.regex st2) = 0%nat).
  { intros b st2. unfold InputTools.handleNumericAction.
    destruct (negb _); [intros E; inversion E; subst; exact H1|].
    destruct (RegExp.SELECTION_REGEX text) as [[baseText digit]|];
      [|intros E; inversion E; subst; exact H1].
    destruct ((1 <=? digit - 48) && (digit - 48 <=? 6)).
    - destruct (digit - 48 - 1 <? _);
        [|intros E; inversion E; subst; exact H1].
      destruct (nth_error _ _);
        intros E; inversion E; subst; [apply Hsel | exact H1].
    - destruct ((digit - 48 =? 0) && _).
      + intros E; inversion E; subst. unfold InputTools.goToNextPage.
        destruct (InputTools.hasNextPage _); exact H1.
      + destruct ((digit - 48 =? 9) && _);
          intros E; inversion E; subst; [|exact H1].
        unfold InputTools.goToPreviousPage.
        destruct (InputTools.hasPreviousPage _); exact H1. }
  destruct (InputTools.handleNumericAction st1 text) as [handled st2] eqn:E.
  specialize (Hnum _ _ eq_refl).
  destruct handled; [exact Hnum|].
  destruct (regex_separate_chinese (InputTools.regex st2) text Hnum) as [_ E2].
  cbv zeta in E2.
  destruct (Utils.separateChineseAndEnglish (InputTools.regex st2) text).
  exact E2.
Qed.

Lemma debounceElapsed_regex
      (useFetch : jsstring -> list jsstring -> list jsstring)
      (st st' : InputTools.State) :
  Utils.CHINESE_lastIndex (InputTools.regex st) = 0%nat ->
  InputTools.debounceElapsed useFetch st = Ok st' ->
  Utils.CHINESE_lastIndex (InputTools.regex st') = 0%nat.
Proof.
  intros H. unfold InputTools.debounceElapsed.
  destruct (jsstring_eqb _ _); [intros E; inversion E; subst; exact H|].
  unfold InputTools.suggestionsUrl.
  destruct (trim (InputTools.searchText st));
    [intros E; inversion E; subst; exact H|].
  destruct (regex_separate_chinese (InputTools.regex st)
                                   (InputTools.searchText st) H) as [_ E2].
  cbv zeta in E2.
  destruct (Utils.separateChineseAndEnglish (InputTools.regex st)
                                            (InputTools.searchText st))
    as [sep re].
  simpl in E2.
  destruct (trim (Utils.english sep));
    [intros E; inversion E; subst; exact E2|].
  destruct (Utils.buildSuggestionsUrl _ _ _) as [[url|e] cache];
    intros E; inversion E; subst; exact E2.
Qed.

Lemma initial_regex :
  Utils.CHINESE_lastIndex (InputTools.regex InputTools.initial) = 0%nat.
Proof. reflexivity. Qed.

(** The retained and the query part of a text that ends in a digit are
    those of the text before the digit. *)
Lemma retained_trailing_digit (base : jsstring) (d : Z) :
  isNumeric d = true -> Spec.retained (base ++ [d]) = Spec.retained base.
Proof.
  intros Hd. unfold Spec.retained. rewrite filter_app. simpl.
  rewrite (chinese_not_numeric_contra d Hd). apply app_nil_r.
Qed.

Lemma query_trailing_digit (base : jsstring) (d : Z) :
  isNumeric d = true -> Spec.query (base ++ [d]) = Spec.query base.
Proof.
  intros Hd. unfold Spec.query. rewrite filter_app. simpl.
  rewrite Hd, andb_false_r. apply app_nil_r.
Qed.

(** C7, as the code has it.  A buffer-change event whose text is a
    single-line base followed by a digit n from 1 to 6, when position n
    does not exist in the current page's slice.  In every state, the
    key is not acted on as a control key: the page index, the candidate
    list, the has-selected flag, the debounced text, the locator and the
    cache are as they were (the flag because the text is not blank),
    and the buffer is set to the re-segmented event text.  With the CJK
    regex at rest, as every handler leaves it, that is the CJK
    characters of the base followed by a query part that, digits apart,
    is made of the other characters of the base.  With both regexes at
    rest and no digit in the base, the query part is exactly those
    characters, so the digit is dropped; the digit regex is left with
    lastIndex 1; and the buffer is the one before the event exactly when
    that buffer is already the CJK characters of the base followed by
    its other characters. *)
Theorem digit_without_candidate (st : InputTools.State)
        (base : jsstring) (n : Z) :
  Forall (fun c => isLineTerminator c = false) base ->
  1 <= n <= 6 ->
  nth_error
    (InputTools.slice (InputTools.suggestions st)
                      (InputTools.startIndex (InputTools.pagination st))
                      (InputTools.endIndex (InputTools.pagination st)))
    (Z.to_nat (n - 1)) = None ->
  let st' := InputTools.handleSearchTextChange st (base ++ [48 + n]) in
  (InputTools.handleNumericAction st (base ++ [48 + n]) = (false, st) /\
   InputTools.currentPageState st' = InputTools.currentPageState st /\
   InputTools.suggestions st' = InputTools.suggestions st /\
   InputTools.hasSelectedSuggestion st' = InputTools.hasSelectedSuggestion st /\
   InputTools.debouncedSearchText st' = InputTools.debouncedSearchText st /\
   InputTools.suggestionsUrlMemo st' = InputTools.suggestionsUrlMemo st /\
   InputTools.urlCache st' = InputTools.urlCache st /\
   InputTools.searchText st' =
     Utils.chinese (fst (Utils.separateChineseAndEnglish
                           (InputTools.regex st) (base ++ [48 + n]))) ++
     Utils.english (fst (Utils.separateChineseAndEnglish
                           (InputTools.regex st) (base ++ [48 + n])))) /\
  (Utils.CHINESE_lastIndex (InputTools.regex st) = 0%nat ->
   exists query,
     InputTools.searchText st' = Spec.retained base ++ query /\
     Spec.non_digits query = Spec.query base) /\
  (InputTools.regex st = Utils.regex_init ->
   Forall (fun c => isNumeric c = false) base ->
   InputTools.searchText st' = Spec.retained base ++ Spec.query base /\
   InputTools.regex st' =
     {| Utils.CHINESE_lastIndex := 0; Utils.NUMERIC_lastIndex := 1 |} /\
   (InputTools.searchText st' = InputTools.searchText st <->
    InputTools.searchText st = Spec.retained base ++ Spec.query base)).
Proof.
  intros Hb Hn Hc st'.
  destruct (selection_digit_cases n Hn) as (Hkey & Hnk & Hws & Hnum).
  assert (Hnone : nth_error (InputTools.paginatedSuggestions st)
                             (Z.to_nat (n - 1)) = None)
    by (rewrite paginatedSuggestions_nth, Hc; reflexivity).
  assert (Hact : InputTools.handleNumericAction st (base ++ [48 + n]) =
                 (false, st))
    by (rewrite handleNumericAction_select, Hnone by assumption; reflexivity).
  assert (E : st' =
              InputTools.setSearchText
                (Utils.chinese (fst (Utils.separateChineseAndEnglish
                                       (InputTools.regex st) (base ++ [48 + n]))) ++
                 Utils.english (fst (Utils.separateChineseAndEnglish
                                       (InputTools.regex st) (base ++ [48 + n]))))
                (InputTools.setRegex
                   (snd (Utils.separateChineseAndEnglish
                           (InputTools.regex st) (base ++ [48 + n]))) st)).
  { subst st'. rewrite handleSearchTextChange_digit, Hnone by assumption.
    now destruct (Utils.separateChineseAndEnglish (InputTools.regex st)
                                                  (base ++ [48 + n])). }
  clearbody st'. subst st'. split; [|split].
  - repeat split. exact Hact.
  - intros Hre. cbn [InputTools.searchText InputTools.setSearchText].
    destruct (regex_segmenter_up_to_digits_aux
                (InputTools.regex st) (base ++ [48 + n]) Hre) as (E1 & E2).
    eexists. split.
    + rewrite E1, retained_trailing_digit by assumption. reflexivity.
    + rewrite E2. now apply query_trailing_digit.
  - intros Hre Hd. rewrite Hre.
    rewrite regex_separate_trailing_digit by assumption.
    cbn [InputTools.searchText InputTools.setSearchText InputTools.regex
         InputTools.setRegex fst snd Utils.chinese Utils.english].
    repeat split; intros H; congruence.
Qed.

(** The buffer nei with no candidate and the key 5: the event leaves
    the buffer as it was. *)
Lemma digit_without_candidate_witness :
  let st := InputTools.showing (u16 "nei") [] in
  InputTools.searchText (InputTools.handleSearchTextChange st (u16 "nei5")) =
    InputTools.searchText st.
Proof.
  exact (proj2 (proj2 (proj2
            (proj2 (proj2
               (digit_without_candidate
                  (InputTools.showing (u16 "nei") []) (u16 "nei") 5
                  (single_line_check (u16 "nei") eq_refl)
                  (conj (Zle_bool_imp_le 1 5 eq_refl)
                        (Zle_bool_imp_le 5 6 eq_refl))
                  eq_refl))
               eq_refl (no_digit_check (u16 "nei") eq_refl)))) eq_refl).
Defined.

(** C7 fails as stated.  The candidate T followed by U+6064 is
    selected for the buffer tseot, which makes the buffer that candidate
    and empties the candidate list; the key 5 then finds no candidate,
    and the buffer is changed all the same: its CJK character is moved to
    the front. *)
Lemma digit_without_candidate_reorders :
  let st0 := InputTools.showing (u16 "tseot") [[84; 0x6064]] in
  let st1 := InputTools.handleSearchTextChange st0 (u16 "tseot1") in
  let st2 := InputTools.handleSearchTextChange
               st1 (InputTools.searchText st1 ++ u16 "5") in
  InputTools.searchText st1 = [84; 0x6064] /\
  InputTools.regex st1 = Utils.regex_init /\
  InputTools.paginatedSuggestions st1 = [] /\
  InputTools.searchText st2 = [0x6064; 84] /\
  InputTools.searchText st2 <> InputTools.searchText st1.
Proof. cbv zeta. repeat split. vm_compute. discriminate. Qed.

(** ** The debounced query *)




(* ================================================================== *)
(** * Further properties of the code *)

(** ** The envelope patterns, in full *)

Lemma dotplus_close_sound (s : jsstring) (run : nat) (m : jsstring) :
  RegExp.dotplus_close s run = Some m ->
  exists k, (1 <= k <= run)%nat /\ skipn k s = [41] /\ m = firstn k s.
Proof.
  induction run as [|r IH]; simpl; [discriminate|].
  intros H.
  assert (Hrec : RegExp.dotplus_close s r = Some m ->
                 exists k, (1 <= k <= S r)%nat /\ skipn k s = [41] /\
                           m = firstn k s).
  { intros H'. destruct (IH H') as (k & Hk & E1 & E2). exists k.
    split; [lia | auto]. }
  destruct s as [|x s']; [destruct r; simpl in H; auto|].
  destruct (skipn r s') as [|c [|c' l]] eqn:E; auto.
  destruct (Z.eqb_spec c 41); auto.
  inversion H; subst. exists (S r). repeat split; try lia. exact E.
Qed.

Lemma firstn_dot_run (s : jsstring) :
  forall k, (k <= RegExp.dot_run s)%nat ->
            Forall (fun c => isLineTerminator c = false) (firstn k s).
Proof.
  induction s as [|c s IH]; intros [|k] H; simpl; try constructor.
  - simpl in H. destruct (isLineTerminator c); [lia | reflexivity].
  - simpl in H. destruct (isLineTerminator c); [lia|]. apply IH. lia.
Qed.

Lemma payload_at_sound (s m : jsstring) :
  RegExp.payload_at s = Some m ->
  s = m ++ [41] /\ m <> [] /\ Forall (fun c => isLineTerminator c = false) m.
Proof.
  unfold RegExp.payload_at. intros H.
  apply dotplus_close_sound in H as (k & Hk & E1 & ->).
  split; [|split].
  - rewrite <- E1. symmetry. apply firstn_skipn.
  - intros E. destruct k; [lia|]. destruct s; [destruct k; discriminate|].
    discriminate.
  - apply firstn_dot_run. lia.
Qed.

(** X1.  What the strict pattern captures: the text is a prefix, an opening
    parenthesis, the captured group and the closing parenthesis that ends
    the text; the group is not empty and has no line terminator; and no
    opening parenthesis further left qualifies. *)
Theorem JSONP_MATCH_leftmost (text payload : jsstring) :
  RegExp.JSONP_MATCH text = Some payload ->
  exists prefix,
    text = prefix ++ [40] ++ payload ++ [41] /\
    payload <> [] /\
    Forall (fun c => isLineTerminator c = false) payload /\
    forall prefix' payload',
      text = prefix' ++ [40] ++ payload' ++ [41] ->
      payload' <> [] ->
      Forall (fun c => isLineTerminator c = false) payload' ->
      (length prefix <= length prefix')%nat.
Proof.
  induction text as [|c text IH]; simpl; [discriminate|].
  destruct (if c =? 40 then RegExp.payload_at text else None) as [m|] eqn:E.
  - intros H; inversion H; subst m.
    destruct (Z.eqb_spec c 40); [|discriminate]. subst c.
    apply payload_at_sound in E as (E1 & E2 & E3).
    exists []. simpl. rewrite E1. repeat split; auto. intros; lia.
  - intros H. destruct (IH H) as (prefix & E1 & E2 & E3 & E4).
    exists (c :: prefix). split; [simpl; f_equal; exact E1|].
    repeat split; auto.
    intros [|c' prefix'] payload' Ht Hne Hl.
    + exfalso. simpl in Ht. injection Ht as Hc Ht'. subst c.
      rewrite Z.eqb_refl in E. rewrite Ht' in E.
      rewrite payload_at_closed in E by assumption. discriminate.
    + simpl in Ht. injection Ht as Hc Ht'. simpl.
      apply le_n_S. apply (E4 prefix' payload'); auto.
Qed.

Lemma JSONP_MATCH_leftmost_witness :
  exists prefix,
    u16 "f(1)(2)" = prefix ++ [40] ++ u16 "1)(2" ++ [41] /\
    forall prefix' payload',
      u16 "f(1)(2)" = prefix' ++ [40] ++ payload' ++ [41] ->
      payload' <> [] ->
      Forall (fun c => isLineTerminator c = false) payload' ->
      (length prefix <= length prefix')%nat.
Proof.
  destruct (JSONP_MATCH_leftmost (u16 "f(1)(2)") (u16 "1)(2") eq_refl)
    as (prefix & E1 & _ & _ & E4).
  exists prefix. split; assumption.
Defined.

Lemma fallback_redundant_aux (text : jsstring) :
  RegExp.JSONP_MATCH text = None ->
  Utils.parseSuggestionsResponse text = Throw MalformedEnvelope.
Proof.
  intros H. unfold Utils.parseSuggestionsResponse.
  now rewrite JSONP_ALT_MATCH_eq, H.
Qed.

(** X2.  The fallback pattern is redundant: on every text it captures what
    the strict pattern captures, or fails with it; so the decoder reports
    a malformed envelope exactly when the strict pattern finds nothing. *)
Theorem fallback_pattern_redundant (text : jsstring) :
  RegExp.JSONP_ALT_MATCH text = RegExp.JSONP_MATCH text /\
  (Utils.parseSuggestionsResponse text = Throw MalformedEnvelope <->
   RegExp.JSONP_MATCH text = None).
Proof.
  split; [apply JSONP_ALT_MATCH_eq|]. split.
  - intros H. destruct (RegExp.JSONP_MATCH text) as [p|] eqn:E; [|reflexivity].
    exfalso. rewrite (decode_payload text p) in H by (left; exact E).
    destruct (JSON.parse p) as [[| | | |[|status [|data els]]|]|];
      try (vm_compute in H; discriminate H).
    destruct (Utils.isSuccess status); discriminate H.
  - intros H. unfold Utils.parseSuggestionsResponse.
    now rewrite JSONP_ALT_MATCH_eq, H.
Qed.

Lemma JSONP_MATCH_last (text payload : jsstring) :
  RegExp.JSONP_MATCH text = Some payload -> last text 0 = 41.
Proof.
  induction text as [|c text IH]; simpl; [discriminate|].
  destruct (if c =? 40 then RegExp.payload_at text else None) as [m|] eqn:E.
  - intros _. destruct (c =? 40); [|discriminate].
    apply payload_at_sound in E as (E1 & E2 & _). rewrite E1.
    destruct (m ++ [41]) eqn:E3; [now destruct m|].
    rewrite <- E3. apply last_last.
  - intros H. specialize (IH H).
    destruct text; [discriminate H | exact IH].
Qed.

(** X3.  A response text that does not end in a closing parenthesis is
    rejected as a malformed envelope, whatever else it holds. *)
Theorem decode_needs_closing_paren (text : jsstring) :
  last text 0 <> 41 ->
  Utils.parseSuggestionsResponse text = Throw MalformedEnvelope.
Proof.
  intros H. apply fallback_redundant_aux.
  destruct (RegExp.JSONP_MATCH text) as [p|] eqn:E; [|reflexivity].
  exfalso. apply H. now apply JSONP_MATCH_last in E.
Qed.

Lemma decode_needs_closing_paren_witness :
  Utils.parseSuggestionsResponse (lit "cb(['SUCCESS',[]]);") =
  Throw MalformedEnvelope.
Proof.
  apply (decode_needs_closing_paren (lit "cb(['SUCCESS',[]]);")).
  vm_compute. discriminate.
Defined.

(** ** The control-sequence pattern, in full *)

Lemma SELECTION_from_sound (s : jsstring) :
  forall acc base d,
    RegExp.SELECTION_from acc s = Some (base, d) ->
    exists tail,
      base = acc ++ tail /\ s = tail ++ [d] /\
      Forall (fun c => isLineTerminator c = false) tail /\
      RegExp.isSelectionKey d = true.
Proof.
  induction s as [|c s IH]; intros acc base d; [discriminate|].
  destruct s as [|x s'].
  - simpl. destruct (RegExp.isSelectionKey c) eqn:K; [|discriminate].
    intros H; inversion H; subst. exists []. rewrite app_nil_r. auto.
  - rewrite SELECTION_from_cons.
    destruct (isLineTerminator c) eqn:L; [discriminate|].
    intros H. destruct (IH _ _ _ H) as (tail & E1 & E2 & E3 & E4).
    exists (c :: tail). rewrite E1, <- app_assoc. simpl. rewrite E2.
    repeat split; auto.
Qed.

Lemma selection_key_numeric_key (d : Z) :
  RegExp.isSelectionKey d = true -> InputTools.NUMERIC_KEYS_has [d] = true.
Proof.
  unfold RegExp.isSelectionKey. intros H. bool_to_prop_in H.
  assert (E : d = 48 \/ d = 49 \/ d = 50 \/ d = 51 \/ d = 52 \/ d = 53 \/
              d = 54 \/ d = 57) by lia.
  destruct E as [-> | [-> | [-> | [-> | [-> | [-> | [-> | ->]]]]]]];
    reflexivity.
Qed.

(** X4.  The selection pattern matches exactly the texts made of a base
    without line terminator followed by one of the keys 0 to 6 and 9, and
    its groups are that base and that key. *)
Theorem SELECTION_REGEX_iff (text base : jsstring) (d : Z) :
  RegExp.SELECTION_REGEX text = Some (base, d) <->
  text = base ++ [d] /\
  Forall (fun c => isLineTerminator c = false) base /\
  RegExp.isSelectionKey d = true.
Proof.
  split.
  - unfold RegExp.SELECTION_REGEX. intros H.
    apply SELECTION_from_sound in H as (tail & E1 & E2 & E3 & E4).
    simpl in E1. subst. auto.
  - intros (-> & H1 & H2). now apply SELECTION_REGEX_digit.
Qed.

(** X5.  The quick look at the last character never turns away a text the
    selection pattern would match: the early return of the handler of
    numeric actions changes no outcome. *)
Theorem numeric_keys_check_redundant (text : jsstring) :
  InputTools.NUMERIC_KEYS_has (skipn (length text - 1) text) = false ->
  RegExp.SELECTION_REGEX text = None.
Proof.
  intros H. destruct (RegExp.SELECTION_REGEX text) as [[base d]|] eqn:E;
    [|reflexivity].
  unfold RegExp.SELECTION_REGEX in E.
  apply SELECTION_from_sound in E as (tail & _ & E2 & _ & E4).
  subst text. rewrite last_char in H.
  apply selection_key_numeric_key in E4. congruence.
Qed.

Lemma numeric_keys_check_redundant_witness :
  RegExp.SELECTION_REGEX (u16 "nei7") = None.
Proof.
  exact (numeric_keys_check_redundant (u16 "nei7") eq_refl).
Defined.

(** ** Pages *)

Lemma slice_firstn_skipn {A : Type} (l : list A) (a b : Z) :
  0 <= a <= b ->
  InputTools.slice l a b = firstn (Z.to_nat (b - a)) (skipn (Z.to_nat a) l).
Proof.
  intros H. unfold InputTools.slice.
  destruct (Z.ltb_spec a 0); [lia|]. destruct (Z.ltb_spec b 0); [lia|].
  destruct (Z.le_gt_cases (Z.of_nat (length l)) a) as [La|La].
  - rewrite !(skipn_all2 l) by lia. now rewrite !firstn_nil.
  - rewrite (Z.min_l a) by lia.
    destruct (Z.le_gt_cases b (Z.of_nat (length l))) as [Lb|Lb].
    + now rewrite (Z.min_l b) by lia.
    + rewrite (Z.min_r b) by lia.
      rewrite !firstn_all2; [reflexivity | |]; rewrite length_skipn; lia.
Qed.

Lemma slice_length {A : Type} (l : list A) (a b : Z) :
  a <= b -> (length (InputTools.slice l a b) <= Z.to_nat (b - a))%nat.
Proof.
  intros H. unfold InputTools.slice.
  etransitivity; [apply firstn_le_length|].
  destruct (Z.ltb_spec a 0); destruct (Z.ltb_spec b 0); lia.
Qed.

Lemma firstn_add {A : Type} (a b : nat) :
  forall l : list A, firstn (a + b) l = firstn a l ++ firstn b (skipn a l).
Proof.
  induction a as [|a IH]; intros [|x l]; simpl; try reflexivity.
  - now rewrite firstn_nil.
  - now rewrite IH.
Qed.

Lemma concat_chunks {A : Type} (size : nat) (l : list A) (n : nat) :
  concat (map (fun p => firstn size (skipn (p * size) l)) (seq 0 n)) =
  firstn (n * size) l.
Proof.
  induction n as [|n IH]; [reflexivity|].
  rewrite seq_S, map_app, concat_app, IH. simpl.
  rewrite app_nil_r, (Nat.add_comm size), firstn_add. reflexivity.
Qed.

Lemma pagination_in_range (totalItems page : Z) :
  0 <= totalItems ->
  let tp := InputTools.totalPages
              (InputTools.usePagination totalItems
                                        InputTools.SUGGESTIONS_PER_PAGE 0) in
  1 <= tp /\ totalItems <= tp * 6 /\ (tp - 1) * 6 < totalItems + 6.
Proof.
  intros H. cbv zeta. unfold InputTools.usePagination.
  cbn [InputTools.totalPages].
  change (Z.max 1 InputTools.SUGGESTIONS_PER_PAGE) with 6.
  pose proof (Math_ceil_div_spec totalItems 6 ltac:(lia)).
  repeat split; lia.
Qed.

Lemma page_slice_chunk (candidates : list jsstring) (p : nat) :
  Z.of_nat p <
    InputTools.totalPages
      (InputTools.usePagination (Z.of_nat (length candidates))
                                InputTools.SUGGESTIONS_PER_PAGE 0) ->
  Session.page_slice candidates p = firstn 6 (skipn (p * 6) candidates).
Proof.
  unfold Session.page_slice, InputTools.usePagination.
  cbn [InputTools.totalPages InputTools.startIndex InputTools.endIndex].
  change (Z.max 1 InputTools.SUGGESTIONS_PER_PAGE) with 6.
  set (tp := Z.max 1 (InputTools.Math_ceil_div (Z.of_nat (length candidates)) 6)).
  intros H. rewrite (Z.min_l (Z.of_nat p)) by lia.
  rewrite slice_firstn_skipn by lia.
  match goal with
  | |- firstn ?a (skipn ?b _) = _ =>
      replace a with 6%nat by lia; replace b with (p * 6)%nat by lia
  end.
  reflexivity.
Qed.

(** X10.  Paging loses no candidate and repeats none: the slices of pages 0
    to totalPages - 1, one after the other, are the candidate list. *)
Theorem pages_partition (candidates : list jsstring) :
  let n := Z.to_nat
             (InputTools.totalPages
                (InputTools.usePagination (Z.of_nat (length candidates))
                                          InputTools.SUGGESTIONS_PER_PAGE 0)) in
  concat (map (Session.page_slice candidates) (seq 0 n)) = candidates.
Proof.
  cbv zeta.
  destruct (pagination_in_range (Z.of_nat (length candidates)) 0
                                ltac:(lia)) as (H1 & H2 & _).
  cbv zeta in H1, H2.
  set (tp := InputTools.totalPages _) in *.
  rewrite (map_ext_in _ (fun p => firstn 6 (skipn (p * 6) candidates))).
  - rewrite concat_chunks. apply firstn_all2. lia.
  - intros p Hp. apply in_seq in Hp. apply page_slice_chunk. fold tp. lia.
Qed.

(** X11.  The displayed page holds at most six candidates, numbered from 1
    without a gap, each with the text of its place in the page's slice:
    the numbers are the keys 1 to 6 that select them. *)
Theorem displayed_candidates_numbered (st : InputTools.State) :
  (length (InputTools.paginatedSuggestions st) <= 6)%nat /\
  forall k sg,
    nth_error (InputTools.paginatedSuggestions st) k = Some sg ->
    InputTools.index sg = Z.of_nat k + 1 /\
    1 <= InputTools.index sg <= 6 /\
    nth_error
      (InputTools.slice (InputTools.suggestions st)
                        (InputTools.startIndex (InputTools.pagination st))
                        (InputTools.endIndex (InputTools.pagination st))) k =
      Some (InputTools.text sg).
Proof.
  assert (L : (length (InputTools.paginatedSuggestions st) <= 6)%nat).
  { rewrite paginatedSuggestions_slice.
    assert (E : forall l i, length (InputTools.number_from i l) = length l)
      by (induction l; intros; simpl; auto).
    rewrite E.
    assert (B : InputTools.endIndex (InputTools.pagination st) -
                InputTools.startIndex (InputTools.pagination st) = 6).
    { unfold InputTools.pagination, InputTools.usePagination.
      cbn [InputTools.startIndex InputTools.endIndex].
      change (Z.max 1 InputTools.SUGGESTIONS_PER_PAGE) with 6. lia. }
    pose proof (slice_length (InputTools.suggestions st)
                  (InputTools.startIndex (InputTools.pagination st))
                  (InputTools.endIndex (InputTools.pagination st))
                  ltac:(lia)) as S.
    rewrite B in S. exact S. }
  split; [exact L|]. intros k sg H.
  assert (Hk : (k < 6)%nat).
  { assert (k < length (InputTools.paginatedSuggestions st))%nat
      by (apply nth_error_Some; congruence). lia. }
  rewrite paginatedSuggestions_nth in H.
  destruct (nth_error (InputTools.slice _ _ _) k) as [t|]; [|discriminate].
  inversion H; subst. simpl. repeat split; lia.
Qed.

Lemma displayed_candidates_numbered_witness :
  let st := InputTools.showing (u16 "nei")
              (map (fun i => [0x4E00 + Z.of_nat i]) (seq 0 13)) in
  (length (InputTools.paginatedSuggestions st) <= 6)%nat.
Proof.
  exact (proj1 (displayed_candidates_numbered
                  (InputTools.showing (u16 "nei")
                     (map (fun i => [0x4E00 + Z.of_nat i]) (seq 0 13))))).
Defined.

(** X12.  The navigation flags say what is there: a next page is offered
    exactly when candidates lie beyond the end of the slice, a previous
    page exactly when the slice does not start at the first candidate. *)
Theorem navigation_flags_exact (totalItems pageSize requestedPageIndex : Z) :
  0 <= totalItems -> 0 <= requestedPageIndex ->
  let p := InputTools.usePagination totalItems pageSize requestedPageIndex in
  (InputTools.hasNextPage p = true <-> InputTools.endIndex p < totalItems) /\
  (InputTools.hasPreviousPage p = true <-> 0 < InputTools.startIndex p).
Proof.
  intros Ht Hr. cbv zeta. unfold InputTools.usePagination; simpl.
  set (safe := Z.max 1 pageSize).
  assert (Hs : 1 <= safe) by (subst safe; lia).
  pose proof (Math_ceil_div_spec totalItems safe ltac:(lia)) as [C1 C2].
  set (ceil := InputTools.Math_ceil_div totalItems safe) in *.
  set (tp := Z.max 1 ceil).
  set (page := Z.min requestedPageIndex (tp - 1)).
  assert (Hp : 0 <= page <= tp - 1) by (subst page tp; lia).
  rewrite Z.ltb_lt, Z.gtb_ltb, Z.ltb_lt. split; split; intros H.
  - assert (page + 1 <= ceil - 1) by (subst tp; lia). nia.
  - assert (page + 1 < ceil) by nia. subst tp. lia.
  - nia.
  - nia.
Qed.

Lemma navigation_flags_exact_witness :
  InputTools.hasNextPage (InputTools.usePagination 13 6 1) = true /\
  InputTools.hasPreviousPage (InputTools.usePagination 13 6 1) = true.
Proof.
  destruct (navigation_flags_exact 13 6 1 ltac:(lia) ltac:(lia)) as [H1 H2].
  split; [apply H1 | apply H2]; reflexivity.
Defined.

(** ** Page keys and plain edits *)

Lemma handleSearchTextChange_key (st : InputTools.State)
      (base : jsstring) (d : Z) :
  Forall (fun c => isLineTerminator c = false) base ->
  RegExp.isSelectionKey d = true ->
  InputTools.handleSearchTextChange st (base ++ [d]) =
  let (handled, st2) :=
    let num := d - 48 in
    if (1 <=? num) && (num <=? 6) then
      if num - 1 <? Z.of_nat (length (InputTools.paginatedSuggestions st)) then
        match nth_error (InputTools.paginatedSuggestions st)
                        (Z.to_nat (num - 1)) with
        | Some selectedSuggestion =>
            (true, InputTools.handleSuggestionSelect st selectedSuggestion)
        | None => (false, st)
        end
      else (false, st)
    else if (num =? 0) && InputTools.hasNextPage (InputTools.pagination st) then
      (true, InputTools.setSearchText base (InputTools.goToNextPage st))
    else if (num =? 9) && InputTools.hasPreviousPage (InputTools.pagination st)
    then (true, InputTools.setSearchText base (InputTools.goToPreviousPage st))
    else (false, st) in
  if handled then st2
  else
    let (sep, re) :=
      Utils.separateChineseAndEnglish (InputTools.regex st2) (base ++ [d]) in
    InputTools.setSearchText (Utils.chinese sep ++ Utils.english sep)
                             (InputTools.setRegex re st2).
Proof.
  intros Hb Hd. unfold InputTools.handleSearchTextChange.
  assert (Hw : isWhiteSpace d = false).
  { unfold RegExp.isSelectionKey in Hd. bool_to_prop_in Hd.
    unfold_classes. bool_to_prop. lia. }
  destruct (trim_digit base d Hw) as (c & s & ->).
  unfold InputTools.handleNumericAction.
  rewrite last_char, (selection_key_numeric_key d Hd),
    SELECTION_REGEX_digit by assumption.
  reflexivity.
Qed.

(** X6.  The key 0 at the end of a single-line text, when a next page is
    offered: the displayed page advances by one, the buffer becomes the
    base, taken as it is and not segmented, and candidates, flag and
    regular expressions are left alone. *)
Theorem next_page_key (st : InputTools.State) (base : jsstring) :
  Forall (fun c => isLineTerminator c = false) base ->
  InputTools.hasNextPage (InputTools.pagination st) = true ->
  let st' := InputTools.handleSearchTextChange st (base ++ [48]) in
  InputTools.searchText st' = base /\
  InputTools.currentPage (InputTools.pagination st') =
    InputTools.currentPage (InputTools.pagination st) + 1 /\
  InputTools.suggestions st' = InputTools.suggestions st /\
  InputTools.hasSelectedSuggestion st' = InputTools.hasSelectedSuggestion st /\
  InputTools.regex st' = InputTools.regex st /\
  InputTools.debouncedSearchText st' = InputTools.debouncedSearchText st.
Proof.
  intros Hb Hn st'. subst st'.
  rewrite handleSearchTextChange_key by (assumption || reflexivity).
  change (48 - 48) with 0. cbn [Z.leb Z.compare andb Z.eqb]. rewrite Hn.
  unfold InputTools.goToNextPage. rewrite Hn.
  repeat split.
  revert Hn. unfold InputTools.pagination, InputTools.usePagination.
  cbn [InputTools.currentPage InputTools.hasNextPage InputTools.totalPages
       InputTools.suggestions InputTools.currentPageState
       InputTools.setSearchText InputTools.setCurrentPage].
  set (tp := Z.max 1 _). rewrite Z.ltb_lt. lia.
Qed.

Lemma next_page_key_witness :
  let st := InputTools.showing (u16 "hello")
              (map (fun i => [0x4E00 + Z.of_nat i]) (seq 0 13)) in
  let st' := InputTools.handleSearchTextChange st (u16 "hello0") in
  InputTools.searchText st' = u16 "hello" /\
  InputTools.currentPage (InputTools.pagination st') = 1.
Proof.
  cbv zeta.
  destruct (next_page_key
              (InputTools.showing (u16 "hello")
                 (map (fun i => [0x4E00 + Z.of_nat i]) (seq 0 13)))
              (u16 "hello")
              (single_line_check (u16 "hello") eq_refl) eq_refl)
    as (E1 & E2 & _).
  split; [exact E1 | exact E2].
Defined.

(** X7.  The key 9 at the end of a single-line text, when a previous page is
    offered: the page index goes down by one, the buffer becomes the
    base as it is, and candidates, flag and regular expressions are left
    alone; with the page index within the pages, the displayed page is
    the one before. *)
Theorem previous_page_key (st : InputTools.State) (base : jsstring) :
  Forall (fun c => isLineTerminator c = false) base ->
  InputTools.hasPreviousPage (InputTools.pagination st) = true ->
  let st' := InputTools.handleSearchTextChange st (base ++ [57]) in
  InputTools.searchText st' = base /\
  InputTools.currentPageState st' = InputTools.currentPageState st - 1 /\
  0 <= InputTools.currentPageState st' /\
  (InputTools.currentPageState st <=
     InputTools.totalPages (InputTools.pagination st) - 1 ->
   InputTools.currentPage (InputTools.pagination st') =
     InputTools.currentPage (InputTools.pagination st) - 1) /\
  InputTools.suggestions st' = InputTools.suggestions st /\
  InputTools.hasSelectedSuggestion st' = InputTools.hasSelectedSuggestion st /\
  InputTools.regex st' = InputTools.regex st.
Proof.
  intros Hb Hp st'. subst st'.
  rewrite handleSearchTextChange_key by (assumption || reflexivity).
  change (57 - 48) with 9. cbn [Z.leb Z.compare andb Z.eqb Pos.compare
                                 Pos.compare_cont Pos.eqb].
  rewrite Hp. unfold InputTools.goToPreviousPage. rewrite Hp.
  revert Hp. unfold InputTools.pagination, InputTools.usePagination.
  cbn [InputTools.currentPage InputTools.hasPreviousPage InputTools.totalPages
       InputTools.suggestions InputTools.currentPageState
       InputTools.setSearchText InputTools.setCurrentPage
       InputTools.searchText InputTools.hasSelectedSuggestion InputTools.regex].
  set (tp := Z.max 1 _). rewrite Z.gtb_ltb, Z.ltb_lt. intros Hp.
  repeat split; lia.
Qed.

Lemma previous_page_key_witness :
  let st := InputTools.handleSearchTextChange
              (InputTools.showing (u16 "hello")
                 (map (fun i => [0x4E00 + Z.of_nat i]) (seq 0 13)))
              (u16 "hello0") in
  let st' := InputTools.handleSearchTextChange st (u16 "hello9") in
  InputTools.searchText st' = u16 "hello" /\
  InputTools.currentPageState st' = 0.
Proof.
  cbv zeta.
  destruct (previous_page_key
              (InputTools.handleSearchTextChange
                 (InputTools.showing (u16 "hello")
                    (map (fun i => [0x4E00 + Z.of_nat i]) (seq 0 13)))
                 (u16 "hello0"))
              (u16 "hello")
              (single_line_check (u16 "hello") eq_refl) eq_refl)
    as (E1 & E2 & _).
  split; [exact E1 | exact E2].
Defined.

(** X9.  Next then previous is a round trip: from a page index that is not
    negative and with a next page on offer, going to the next page and
    back leaves the state as it was. *)
Theorem next_previous_round_trip (st : InputTools.State) :
  0 <= InputTools.currentPageState st ->
  InputTools.hasNextPage (InputTools.pagination st) = true ->
  InputTools.goToPreviousPage (InputTools.goToNextPage st) = st.
Proof.
  intros H0 Hn. unfold InputTools.goToNextPage. rewrite Hn.
  unfold InputTools.goToPreviousPage.
  revert Hn. unfold InputTools.pagination, InputTools.usePagination.
  cbn [InputTools.hasPreviousPage InputTools.hasNextPage InputTools.totalPages
       InputTools.suggestions InputTools.currentPageState
       InputTools.setCurrentPage].
  set (tp := Z.max 1 _). rewrite Z.ltb_lt. intros Hn.
  replace (Z.min (Z.min (InputTools.currentPageState st + 1) (tp - 1)) (tp - 1)
           >? 0) with true by (symmetry; rewrite Z.gtb_ltb; apply Z.ltb_lt; lia).
  destruct st as [a b c page e f g h]. unfold InputTools.setCurrentPage.
  cbn in *. f_equal. lia.
Qed.

Lemma next_previous_round_trip_witness :
  let st := InputTools.showing (u16 "hello")
              (map (fun i => [0x4E00 + Z.of_nat i]) (seq 0 13)) in
  InputTools.goToPreviousPage (InputTools.goToNextPage st) = st.
Proof.
  exact (next_previous_round_trip
           (InputTools.showing (u16 "hello")
              (map (fun i => [0x4E00 + Z.of_nat i]) (seq 0 13)))
           (Zle_bool_imp_le 0 0 eq_refl) eq_refl).
Defined.

(** X8.  A page key with no page to go to is dropped like any other digit:
    with the regular expressions at rest and a single-line, digit-free
    base, the buffer becomes the CJK characters of the base followed by
    its other characters, and page, candidates and flag stay. *)
Theorem page_key_without_page (st : InputTools.State)
        (base : jsstring) (d : Z) :
  InputTools.regex st = Utils.regex_init ->
  Forall (fun c => isLineTerminator c = false) base ->
  Forall (fun c => isNumeric c = false) base ->
  (d = 48 /\ InputTools.hasNextPage (InputTools.pagination st) = false) \/
  (d = 57 /\ InputTools.hasPreviousPage (InputTools.pagination st) = false) ->
  let st' := InputTools.handleSearchTextChange st (base ++ [d]) in
  InputTools.searchText st' = Spec.retained base ++ Spec.query base /\
  InputTools.currentPageState st' = InputTools.currentPageState st /\
  InputTools.suggestions st' = InputTools.suggestions st /\
  InputTools.hasSelectedSuggestion st' = InputTools.hasSelectedSuggestion st.
Proof.
  intros Hre Hb Hd Hk st'. subst st'.
  assert (K : RegExp.isSelectionKey d = true /\ isNumeric d = true)
    by (destruct Hk as [[-> _] | [-> _]]; split; reflexivity).
  destruct K as [K N].
  rewrite handleSearchTextChange_key by assumption.
  assert (E : (let num := d - 48 in
               if (1 <=? num) && (num <=? 6) then
                 if num - 1 <? Z.of_nat (length (InputTools.paginatedSuggestions st))
                 then
                   match nth_error (InputTools.paginatedSuggestions st)
                                   (Z.to_nat (num - 1)) with
                   | Some selectedSuggestion =>
                       (true, InputTools.handleSuggestionSelect st selectedSuggestion)
                   | None => (false, st)
                   end
                 else (false, st)
               else if (num =? 0) && InputTools.hasNextPage (InputTools.pagination st)
                    then (true, InputTools.setSearchText base (InputTools.goToNextPage st))
                    else if (num =? 9) &&
                            InputTools.hasPreviousPage (InputTools.pagination st)
                         then (true, InputTools.setSearchText base
                                       (InputTools.goToPreviousPage st))
                         else (false, st)) = (false, st)).
  { destruct Hk as [[-> H] | [-> H]]; cbv zeta; rewrite H; reflexivity. }
  rewrite E, Hre, regex_separate_trailing_digit by assumption.
  repeat split.
Qed.

Lemma page_key_without_page_witness :
  let st := InputTools.showing (u16 "nei") [[0x4F60]] in
  InputTools.searchText (InputTools.handleSearchTextChange st (u16 "nei0")) =
    u16 "nei".
Proof.
  exact (proj1 (page_key_without_page
                  (InputTools.showing (u16 "nei") [[0x4F60]]) (u16 "nei") 48
                  eq_refl
                  (single_line_check (u16 "nei") eq_refl)
                  (no_digit_check (u16 "nei") eq_refl)
                  (or_introl (conj eq_refl eq_refl)))).
Defined.

(** ** The two segmenters *)

Lemma retained_idempotent (text : jsstring) :
  Spec.retained (Spec.retained text ++ Spec.query text) = Spec.retained text.
Proof.
  unfold Spec.retained, Spec.query. rewrite filter_app.
  replace (filter isChinese
             (filter (fun c => negb (isChinese c) && negb (isNumeric c)) text))
    with (@nil Z).
  - rewrite app_nil_r. induction text as [|c text IH]; simpl; [reflexivity|].
    destruct (isChinese c) eqn:E; simpl; [now rewrite E, IH | exact IH].
  - induction text as [|c text IH]; simpl; [reflexivity|].
    destruct (isChinese c) eqn:E; simpl; [exact IH|].
    destruct (isNumeric c); simpl; [exact IH|]. now rewrite E.
Qed.

Lemma query_idempotent (text : jsstring) :
  Spec.query (Spec.retained text ++ Spec.query text) = Spec.query text.
Proof.
  unfold Spec.retained, Spec.query. rewrite filter_app.
  replace (filter (fun c => negb (isChinese c) && negb (isNumeric c))
                  (filter isChinese text)) with (@nil Z).
  - simpl. induction text as [|c text IH]; simpl; [reflexivity|].
    destruct (negb (isChinese c) && negb (isNumeric c)) eqn:E; simpl;
      [now rewrite E, IH | exact IH].
  - induction text as [|c text IH]; simpl; [reflexivity|].
    destruct (isChinese c) eqn:E; simpl; [|exact IH]. now rewrite E.
Qed.

(** X14.  Segmenting is a normalisation: the code-unit segmenter, run on the
    buffer it produces (retained part, then query part), gives the same
    two parts again. *)
Theorem charCode_segmenter_idempotent (text : jsstring) :
  let r := UtilsCharCode.separateChineseAndEnglish text in
  UtilsCharCode.separateChineseAndEnglish (Utils.chinese r ++ Utils.english r) = r.
Proof.
  cbv zeta. rewrite !charCode_separate_eq. cbn [Utils.chinese Utils.english].
  now rewrite retained_idempotent, query_idempotent.
Qed.

(** X15.  The regex segmenter of src/utils.ts is right up to digits: with the
    CJK regex at rest and whatever the state of the digit regex, the
    retained part is the CJK characters of the text, the query part holds
    no CJK character, and the query part without its digits is the
    text's other non-digit characters, in order. *)
Theorem regex_segmenter_up_to_digits (re : Utils.RegexState) (text : jsstring) :
  Utils.CHINESE_lastIndex re = 0%nat ->
  let r := fst (Utils.separateChineseAndEnglish re text) in
  Utils.chinese r = Spec.retained text /\
  Forall (fun c => isChinese c = false) (Utils.english r) /\
  Spec.non_digits (Utils.english r) = Spec.query text.
Proof.
  intros H. cbv zeta.
  split; [apply (regex_separate_chinese re text H)|].
  destruct re as [cl nl]; simpl in H; subst cl.
  destruct text as [|c text]; [simpl; auto|].
  unfold Utils.separateChineseAndEnglish. rewrite fold_chars_units.
  destruct (fold_units_english (c :: text)
              {| Utils.chinese := []; Utils.english := [] |} nl) as [E1 E2].
  cbv zeta in E1, E2. split; [apply E2; constructor | exact E1].
Qed.

Lemma regex_segmenter_up_to_digits_witness :
  let r := fst (Utils.separateChineseAndEnglish Utils.regex_init
                  (lit "a12你b")) in
  Spec.non_digits (Utils.english r) = u16 "ab".
Proof.
  exact (proj2 (proj2 (regex_segmenter_up_to_digits
                         Utils.regex_init (lit "a12你b") eq_refl))).
Defined.

(** X16.  On a text without digits, with both regular expressions at rest,
    the two revisions of the segmenter return the same parts, and the
    regular expressions are at rest afterwards. *)
Theorem segmenters_agree_without_digits (text : jsstring) :
  Forall (fun c => isNumeric c = false) text ->
  Utils.separateChineseAndEnglish Utils.regex_init text =
  (UtilsCharCode.separateChineseAndEnglish text, Utils.regex_init).
Proof.
  intros H. now rewrite regex_separate_no_digit, charCode_separate_eq.
Qed.

Lemma segmenters_agree_without_digits_witness :
  Utils.separateChineseAndEnglish Utils.regex_init (lit "nei你hou") =
  (UtilsCharCode.separateChineseAndEnglish (lit "nei你hou"), Utils.regex_init).
Proof.
  apply (segmenters_agree_without_digits (lit "nei你hou")).
  apply no_digit_check. vm_compute. reflexivity.
Defined.

(** ** Edits *)

Lemma fold_units_plain (s : jsstring) :
  Forall (fun c => isChinese c = false /\ isNumeric c = false) s ->
  forall out re,
    Utils.english
      (fst (fold_left (fun a c => Utils.separate_step a [c]) s (out, re))) =
      Utils.english out ++ s /\
    Utils.chinese
      (fst (fold_left (fun a c => Utils.separate_step a [c]) s (out, re))) =
      Utils.chinese out.
Proof.
  induction 1 as [|c s [Hc Hn] _ IH]; intros out [cl nl]; cbn [fold_left].
  - simpl. now rewrite app_nil_r.
  - rewrite separate_step_unit, Hc, Hn, !andb_false_r.
    destruct (IH {| Utils.chinese := Utils.chinese out;
                    Utils.english := Utils.english out ++ [c] |}
                 {| Utils.CHINESE_lastIndex := 0;
                    Utils.NUMERIC_lastIndex := 0 |}) as [E1 E2].
    rewrite E1, E2. simpl. now rewrite <- app_assoc.
Qed.

Lemma whitespace_plain (c : Z) :
  isWhiteSpace c = true ->
  isChinese c = false /\ isNumeric c = false /\
  InputTools.NUMERIC_KEYS_has [c] = false.
Proof.
  intros H. assert (K : RegExp.isSelectionKey c = false)
    by (unfold RegExp.isSelectionKey; class_lia).
  repeat split; try class_lia.
  destruct (InputTools.NUMERIC_KEYS_has [c]) eqn:E; [|reflexivity].
  unfold InputTools.NUMERIC_KEYS_has, InputTools.NUMERIC_KEYS in E.
  apply existsb_exists in E as (k & Hin & Hk).
  apply jsstring_eqb_eq in Hk. subst k. exfalso.
  simpl in Hin.
  assert (c = 49 \/ c = 50 \/ c = 51 \/ c = 52 \/ c = 53 \/ c = 54 \/
          c = 57 \/ c = 48)
    by (repeat (destruct Hin as [Hin | Hin];
                [inversion Hin; subst; tauto|]); contradiction).
  unfold RegExp.isSelectionKey in K. bool_to_prop_in K. lia.
Qed.

(** X19.  A blank text (empty, or white space only) is an edit that re-arms
    the short debounce: whatever the state, the has-selected flag is
    cleared, the delay is the initial one, the buffer is that text as
    typed, and page and candidates stay. *)
Theorem blank_text_rearms (st : InputTools.State) (text : jsstring) :
  trim text = [] ->
  let st' := InputTools.handleSearchTextChange st text in
  InputTools.hasSelectedSuggestion st' = false /\
  InputTools.debounceDelay st' = InputTools.INITIAL_DEBOUNCE_DELAY /\
  InputTools.searchText st' = text /\
  InputTools.currentPageState st' = InputTools.currentPageState st /\
  InputTools.suggestions st' = InputTools.suggestions st.
Proof.
  intros Ht. cbv zeta.
  pose proof (trim_nil text Ht) as Hw.
  unfold InputTools.handleSearchTextChange. rewrite Ht.
  assert (Hnum : InputTools.handleNumericAction
                   (InputTools.setHasSelectedSuggestion false st) text =
                 (false, InputTools.setHasSelectedSuggestion false st)).
  { unfold InputTools.handleNumericAction.
    replace (InputTools.NUMERIC_KEYS_has (skipn (length text - 1) text))
      with false; [reflexivity|].
    symmetry. destruct text as [|c text] using rev_ind; [reflexivity|].
    rewrite last_char. apply whitespace_plain.
    rewrite Forall_forall in Hw. apply Hw. apply in_or_app; right; now left. }
  rewrite Hnum.
  assert (Hsep : forall re,
             Utils.chinese (fst (Utils.separateChineseAndEnglish re text)) = [] /\
             Utils.english (fst (Utils.separateChineseAndEnglish re text)) = text).
  { intros re. destruct text as [|c text]; [simpl; auto|].
    unfold Utils.separateChineseAndEnglish. rewrite fold_chars_units.
    destruct (fold_units_plain (c :: text)) with
        (out := {| Utils.chinese := []; Utils.english := [] |}) (re := re)
      as [E1 E2].
    - rewrite Forall_forall in *. intros x Hx.
      destruct (whitespace_plain x (Hw x Hx)) as (A & B & _). auto.
    - rewrite E1, E2. auto. }
  destruct (Hsep (InputTools.regex (InputTools.setHasSelectedSuggestion false st)))
    as [E1 E2].
  destruct (Utils.separateChineseAndEnglish _ text) as [sep re].
  simpl in E1, E2. unfold InputTools.debounceDelay. simpl.
  rewrite E1, E2. repeat split.
Qed.

Lemma blank_text_rearms_witness :
  let st := InputTools.handleSearchTextChange
              (InputTools.showing (u16 "nei") [[0x4F60]]) (u16 "nei1") in
  InputTools.debounceDelay st = 200 /\
  InputTools.debounceDelay (InputTools.handleSearchTextChange st (u16 "  ")) = 100.
Proof.
  split; [reflexivity|].
  exact (proj1 (proj2 (blank_text_rearms
                         (InputTools.handleSearchTextChange
                            (InputTools.showing (u16 "nei") [[0x4F60]])
                            (u16 "nei1"))
                         (u16 "  ") eq_refl))).
Defined.

(** X18.  A text that the selection pattern does not match is a plain edit:
    with the CJK regex at rest, page and candidates stay, the flag is
    cleared only by a blank text, and the buffer becomes the CJK
    characters of the text followed by a query part that, digits aside,
    is the text's other non-digit characters. *)
Theorem plain_edit (st : InputTools.State) (text : jsstring) :
  Utils.CHINESE_lastIndex (InputTools.regex st) = 0%nat ->
  RegExp.SELECTION_REGEX text = None ->
  let st' := InputTools.handleSearchTextChange st text in
  InputTools.currentPageState st' = InputTools.currentPageState st /\
  InputTools.suggestions st' = InputTools.suggestions st /\
  InputTools.hasSelectedSuggestion st' =
    match trim text with
    | [] => false
    | _ :: _ => InputTools.hasSelectedSuggestion st
    end /\
  exists query,
    InputTools.searchText st' = Spec.retained text ++ query /\
    Spec.non_digits query = Spec.query text.
Proof.
  intros Hre Hs. cbv zeta. unfold InputTools.handleSearchTextChange.
  set (st1 := match trim text with
              | [] => InputTools.setHasSelectedSuggestion false st
              | _ :: _ => st
              end).
  assert (H1 : InputTools.regex st1 = InputTools.regex st /\
               InputTools.currentPageState st1 = InputTools.currentPageState st /\
               InputTools.suggestions st1 = InputTools.suggestions st /\
               InputTools.hasSelectedSuggestion st1 =
                 match trim text with
                 | [] => false
                 | _ :: _ => InputTools.hasSelectedSuggestion st
                 end)
    by (subst st1; destruct (trim text); repeat split).
  destruct H1 as (R & P & S & F). clearbody st1.
  assert (Hnum : InputTools.handleNumericAction st1 text = (false, st1)).
  { unfold InputTools.handleNumericAction. rewrite Hs.
    now destruct (negb _). }
  rewrite Hnum.
  assert (Hre1 : Utils.CHINESE_lastIndex (InputTools.regex st1) = 0%nat)
    by now rewrite R.
  destruct (regex_segmenter_up_to_digits_aux (InputTools.regex st1) text Hre1)
    as (E1 & E2).
  destruct (Utils.separateChineseAndEnglish (InputTools.regex st1) text)
    as [sep re].
  simpl in E1, E2. simpl. repeat split; auto.
  exists (Utils.english sep). now rewrite E1.
Qed.

Lemma plain_edit_witness :
  let st := InputTools.showing (u16 "nei") [[0x4F60]] in
  InputTools.suggestions (InputTools.handleSearchTextChange st (lit "nei你h")) =
    [[0x4F60]].
Proof.
  exact (proj1 (proj2 (plain_edit
                         (InputTools.showing (u16 "nei") [[0x4F60]])
                         (lit "nei你h") eq_refl eq_refl))).
Defined.

Lemma lone_digit_not_handled (st : InputTools.State) (d : Z) :
  isNumeric d = true ->
  InputTools.suggestions st = [] ->
  0 <= InputTools.currentPageState st ->
  InputTools.handleNumericAction st [d] = (false, st).
Proof.
  intros Hd Hs Hp.
  assert (P : InputTools.paginatedSuggestions st = [])
    by (unfold InputTools.paginatedSuggestions; now rewrite Hs).
  assert (N : InputTools.hasNextPage (InputTools.pagination st) = false /\
              InputTools.hasPreviousPage (InputTools.pagination st) = false).
  { unfold InputTools.pagination. rewrite Hs.
    unfold InputTools.usePagination. simpl.
    rewrite Z.gtb_ltb. split; apply Z.ltb_ge; lia. }
  destruct N as [N1 N2].
  unfold InputTools.handleNumericAction.
  change (skipn (length [d] - 1) [d]) with [d].
  destruct (InputTools.NUMERIC_KEYS_has [d]); [|reflexivity]. cbn [negb].
  unfold RegExp.SELECTION_REGEX. cbn [RegExp.SELECTION_from].
  destruct (RegExp.isSelectionKey d); [|reflexivity].
  rewrite P, N1, N2, !andb_false_r. cbn [length nth_error].
  destruct ((1 <=? d - 48) && (d - 48 <=? 6)); [|reflexivity].
  destruct (d - 48 - 1 <? Z.of_nat 0); [|reflexivity].
  now destruct (Z.to_nat (d - 48 - 1)).
Qed.

(** X17.  The state of the digit regex outlives an event.  With no candidates
    shown, a page index that is not negative and the regular expressions
    at rest, the text made of one digit leaves the buffer empty, and the
    same text a second time puts that digit in the buffer. *)
Theorem repeated_digit_enters_buffer (st : InputTools.State) (d : Z) :
  isNumeric d = true ->
  InputTools.regex st = Utils.regex_init ->
  InputTools.suggestions st = [] ->
  0 <= InputTools.currentPageState st ->
  let st1 := InputTools.handleSearchTextChange st [d] in
  let st2 := InputTools.handleSearchTextChange st1 [d] in
  InputTools.searchText st1 = [] /\ InputTools.searchText st2 = [d].
Proof.
  intros Hd Hre Hs Hp.
  assert (Hw : exists c s, trim [d] = c :: s).
  { apply (trim_digit [] d). class_lia. }
  destruct Hw as (c & s & Ht).
  assert (C : isChinese d = false) by now apply chinese_not_numeric_contra.
  assert (E1 : InputTools.handleSearchTextChange st [d] =
               InputTools.setSearchText []
                 (InputTools.setRegex
                    {| Utils.CHINESE_lastIndex := 0;
                       Utils.NUMERIC_lastIndex := 1 |} st)).
  { unfold InputTools.handleSearchTextChange.
    rewrite Ht, lone_digit_not_handled, Hre by assumption.
    pose proof (regex_separate_trailing_digit [] d (Forall_nil _) Hd) as S.
    cbn [app] in S. rewrite S. reflexivity. }
  cbv zeta. rewrite E1. split; [reflexivity|].
  unfold InputTools.handleSearchTextChange.
  rewrite Ht, lone_digit_not_handled by assumption.
  cbn [InputTools.regex InputTools.setSearchText InputTools.setRegex].
  unfold Utils.separateChineseAndEnglish. cbn [chars fold_left].
  rewrite separate_step_unit, C, andb_false_r. reflexivity.
Qed.

Lemma repeated_digit_enters_buffer_witness :
  InputTools.searchText
    (InputTools.handleSearchTextChange
       (InputTools.handleSearchTextChange InputTools.initial (u16 "7"))
       (u16 "7")) = u16 "7".
Proof.
  exact (proj2 (repeated_digit_enters_buffer
                  InputTools.initial 55 eq_refl eq_refl eq_refl
                  (Zle_bool_imp_le 0 0 eq_refl))).
Defined.

(** ** The builder and its cache *)

Lemma Map_get_set_same (k v : jsstring) (m : Map.t) :
  Map.get k (Map.set k v m) = Some v.
Proof.
  induction m as [|[k' v'] m IH]; simpl.
  - now rewrite jsstring_eqb_refl.
  - destruct (jsstring_eqb k k') eqn:E; simpl; now rewrite E.
Qed.

(** X20.  A call that returns is remembered: the same call made again at once
    returns the same locator from the cache and leaves the cache as it
    is. *)
Theorem buildSuggestionsUrl_repeat_hits (urlCache urlCache' : Map.t)
        (english : jsstring) (chinese : option jsstring) (url : jsstring) :
  Utils.buildSuggestionsUrl urlCache english chinese = (Ok url, urlCache') ->
  Map.get (Utils.input_of english chinese) urlCache' = Some url /\
  Utils.buildSuggestionsUrl urlCache' english chinese = (Ok url, urlCache').
Proof.
  unfold Utils.buildSuggestionsUrl.
  destruct (Map.get (Utils.input_of english chinese) urlCache) as [u|] eqn:G.
  - intros H; inversion H; subst. now rewrite G.
  - destruct (URI.encodeURIComponent (Utils.input_of english chinese)) as [e|];
      [|discriminate].
    intros H; inversion H; subst. now rewrite Map_get_set_same.
Qed.

Lemma buildSuggestionsUrl_repeat_hits_witness :
  let r := Utils.buildSuggestionsUrl Map.empty (u16 "nei") (Some [0x4F60]) in
  Utils.buildSuggestionsUrl (snd r) (u16 "nei") (Some [0x4F60]) = r.
Proof.
  cbv zeta.
  destruct (Utils.buildSuggestionsUrl Map.empty (u16 "nei") (Some [0x4F60]))
    as [[url|e] c] eqn:E.
  - exact (proj2 (buildSuggestionsUrl_repeat_hits _ _ _ _ _ E)).
  - vm_compute in E. discriminate E.
Defined.

Lemma run_ops_cache_ok (ops : list Session.cache_op) :
  forall urlCache,
    Spec.cache_ok urlCache -> Spec.cache_ok (Session.run_ops urlCache ops).
Proof.
  induction ops as [|[english chinese|] ops IH]; intros urlCache H; simpl.
  - exact H.
  - apply IH. apply buildSuggestionsUrl_locator. exact H.
  - apply IH. apply cache_ok_empty.
Qed.

(** X21.  The cache is no more than a cache: after any sequence of calls of
    the builder and of clearUrlCache, a call of the builder has the
    outcome it has on a fresh cache. *)
Theorem urlCache_transparent (ops : list Session.cache_op)
        (english : jsstring) (chinese : option jsstring) :
  fst (Utils.buildSuggestionsUrl (Session.run_ops Map.empty ops) english chinese) =
  fst (Utils.buildSuggestionsUrl Map.empty english chinese).
Proof.
  rewrite (proj1 (buildSuggestionsUrl_locator _ english chinese
                    (run_ops_cache_ok ops Map.empty cache_ok_empty))).
  now rewrite (proj1 (buildSuggestionsUrl_locator _ english chinese
                        cache_ok_empty)).
Qed.

Lemma encodeURIComponent_illformed (s : jsstring) :
  URI.isWellFormed s = false -> URI.encodeURIComponent s = None.
Proof.
  unfold URI.isWellFormed, URI.encodeURIComponent.
  induction s as [| c | hi lo s IH1 IH2] using chars_ind2.
  - discriminate.
  - simpl. rewrite andb_true_r, negb_false_iff. intros H.
    assert (U : URI.isUnreserved c = false)
      by (unfold URI.isUnreserved; class_lia).
    now rewrite U, H.
  - change (chars (hi :: lo :: s))
      with (if isHighSurrogate hi && isLowSurrogate lo
            then [hi; lo] :: chars s else [hi] :: chars (lo :: s)).
    destruct (isHighSurrogate hi && isLowSurrogate lo).
    + cbn [forallb URI.encodeChars URI.encodeChar]. intros H.
      now rewrite (IH1 H).
    + cbn [forallb URI.encodeChars URI.encodeChar]. intros H.
      apply andb_false_iff in H as [H | H].
      * apply negb_false_iff in H.
        assert (U : URI.isUnreserved hi = false)
          by (unfold URI.isUnreserved; class_lia).
        now rewrite U, H.
      * rewrite (IH2 H). now destruct (if URI.isUnreserved hi then _ else _).
Qed.

(** X22.  The builder throws exactly on a canonical key that is not cached
    and holds a lone surrogate; what it throws is URIError, and the cache
    is then as it was. *)
Theorem buildSuggestionsUrl_throws_iff (urlCache : Map.t)
        (english : jsstring) (chinese : option jsstring) :
  let key := Utils.input_of english chinese in
  ((exists e, fst (Utils.buildSuggestionsUrl urlCache english chinese) = Throw e) <->
   Map.get key urlCache = None /\ URI.isWellFormed key = false) /\
  (forall e,
      fst (Utils.buildSuggestionsUrl urlCache english chinese) = Throw e ->
      e = URIError /\
      snd (Utils.buildSuggestionsUrl urlCache english chinese) = urlCache).
Proof.
  cbv zeta. unfold Utils.buildSuggestionsUrl.
  destruct (Map.get (Utils.input_of english chinese) urlCache) as [u|] eqn:G.
  - simpl. split; [split|].
    + intros [e H]. discriminate.
    + intros [H _]. discriminate.
    + intros e H. discriminate.
  - destruct (URI.isWellFormed (Utils.input_of english chinese)) eqn:W.
    + destruct (encodeURIComponent_wellformed _ W) as [enc ->]. simpl.
      split; [split|].
      * intros [e H]. discriminate.
      * intros [_ H]. discriminate.
      * intros e H. discriminate.
    + rewrite (encodeURIComponent_illformed _ W). simpl.
      split; [split|]; eauto.
      intros e H. inversion H. auto.
Qed.

(** ** The alphabet of the locator's text parameter *)

Lemma range_check (P : Z -> bool) (n : nat) :
  forallb P (map Z.of_nat (seq 0 n)) = true ->
  forall y, 0 <= y < Z.of_nat n -> P y = true.
Proof.
  intros H y Hy. rewrite forallb_forall in H. apply H.
  replace y with (Z.of_nat (Z.to_nat y)) by lia.
  apply in_map. apply in_seq. lia.
Qed.

Lemma percent_encoded (octet : Z) :
  0 <= octet < 256 ->
  Forall (fun c => Session.isEncoded c = true) (URI.percent octet).
Proof.
  intros H.
  pose proof (range_check
                (fun o => forallb Session.isEncoded (URI.percent o)) 256
                ltac:(vm_compute; reflexivity) octet H) as E.
  cbv beta in E. rewrite forallb_forall in E. now apply Forall_forall.
Qed.

Lemma continuation_octet (x : Z) :
  0 <= Z.lor 0x80 (Z.land x 0x3F) < 256.
Proof.
  change 0x3F with (Z.ones 6). rewrite Z.land_ones by lia.
  pose proof (Z.mod_pos_bound x (2 ^ 6) ltac:(lia)) as B.
  pose proof (range_check
                (fun y => (0 <=? Z.lor 0x80 y) && (Z.lor 0x80 y <? 256)) 64
                ltac:(vm_compute; reflexivity) (x mod 2 ^ 6) ltac:(lia)) as E.
  cbv beta in E. apply andb_true_iff in E as [E1 E2].
  apply Z.leb_le in E1. apply Z.ltb_lt in E2. lia.
Qed.

Lemma lead_octet (k cp : Z) (n bound : nat) :
  forallb (fun y => (0 <=? Z.lor k y) && (Z.lor k y <? 256))
          (map Z.of_nat (seq 0 bound)) = true ->
  0 <= cp < Z.of_nat bound * 2 ^ Z.of_nat n ->
  0 <= Z.lor k (Z.shiftr cp (Z.of_nat n)) < 256.
Proof.
  intros C H. rewrite Z.shiftr_div_pow2 by lia.
  assert (P : 0 < 2 ^ Z.of_nat n) by (apply Z.pow_pos_nonneg; lia).
  assert (B : 0 <= cp / 2 ^ Z.of_nat n < Z.of_nat bound).
  { split; [apply Z.div_pos; lia|]. apply Z.div_lt_upper_bound; lia. }
  pose proof (range_check _ bound C _ B) as E. cbv beta in E.
  apply andb_true_iff in E as [E1 E2].
  apply Z.leb_le in E1. apply Z.ltb_lt in E2. lia.
Qed.

Lemma utf8_octets (cp : Z) :
  0 <= cp < 0x110000 -> Forall (fun o => 0 <= o < 256) (URI.utf8 cp).
Proof.
  intros H. unfold URI.utf8.
  destruct (Z.ltb_spec cp 0x80);
    [apply Forall_cons; [lia | apply Forall_nil]|].
  destruct (Z.ltb_spec cp 0x800).
  { apply Forall_cons;
      [apply (lead_octet 0xC0 cp 6 32); [vm_compute; reflexivity | simpl; lia]|].
    repeat (apply Forall_cons; [apply continuation_octet|]). apply Forall_nil. }
  destruct (Z.ltb_spec cp 0x10000).
  { apply Forall_cons;
      [apply (lead_octet 0xE0 cp 12 16); [vm_compute; reflexivity | simpl; lia]|].
    repeat (apply Forall_cons; [apply continuation_octet|]). apply Forall_nil. }
  apply Forall_cons;
    [apply (lead_octet 0xF0 cp 18 8); [vm_compute; reflexivity | simpl; lia]|].
  repeat (apply Forall_cons; [apply continuation_octet|]). apply Forall_nil.
Qed.

Lemma code_point_encoded (cp : Z) :
  0 <= cp < 0x110000 ->
  Forall (fun c => Session.isEncoded c = true) (flat_map URI.percent (URI.utf8 cp)).
Proof.
  intros H. pose proof (utf8_octets cp H) as O.
  induction O as [|o l Ho _ IH]; cbn [flat_map]; [constructor|].
  apply Forall_app. split; [now apply percent_encoded | exact IH].
Qed.

Lemma encodeChar_unit_encoded (c : Z) (e : jsstring) :
  0 <= c <= 0xFFFF ->
  URI.encodeChar [c] = Some e ->
  Forall (fun x => Session.isEncoded x = true) e.
Proof.
  intros Hc. cbn [URI.encodeChar].
  destruct (URI.isUnreserved c) eqn:U.
  - intros H; inversion H. apply Forall_cons; [|apply Forall_nil].
    unfold Session.isEncoded. now rewrite U.
  - destruct (isHighSurrogate c || isLowSurrogate c); [discriminate|].
    intros H; inversion H. apply code_point_encoded. lia.
Qed.

Lemma encodeChars_encoded (s : jsstring) :
  Session.isString s ->
  forall e, URI.encodeChars (chars s) = Some e ->
            Forall (fun c => Session.isEncoded c = true) e.
Proof.
  unfold Session.isString.
  induction s as [| c | hi lo s IH1 IH2] using chars_ind2; intros Hs e.
  - cbn [chars URI.encodeChars]. intros H; inversion H. constructor.
  - inversion Hs as [|? ? Hc _]; subst. cbn [chars URI.encodeChars].
    destruct (URI.encodeChar [c]) as [ec|] eqn:Ec; [|discriminate].
    intros H; inversion H. rewrite app_nil_r.
    now apply (encodeChar_unit_encoded c).
  - inversion Hs as [|? ? Hh Hs']; subst.
    inversion Hs' as [|? ? Hl Hs'']; subst.
    change (chars (hi :: lo :: s))
      with (if isHighSurrogate hi && isLowSurrogate lo
            then [hi; lo] :: chars s else [hi] :: chars (lo :: s)).
    destruct (isHighSurrogate hi && isLowSurrogate lo) eqn:P.
    + cbn [URI.encodeChars URI.encodeChar].
      destruct (URI.encodeChars (chars s)) as [es|] eqn:E; [|discriminate].
      intros H; inversion H. apply Forall_app. split; [|now apply IH1].
      apply code_point_encoded.
      apply andb_true_iff in P as [P1 P2]. revert P1 P2. class_lia.
    + cbn [URI.encodeChars].
      destruct (URI.encodeChar [hi]) as [eh|] eqn:Eh; [|discriminate].
      destruct (URI.encodeChars (chars (lo :: s))) as [es|] eqn:E;
        [|discriminate].
      intros H; inversion H. apply Forall_app. split; [|now apply IH2].
      now apply (encodeChar_unit_encoded hi).
Qed.

(** X23.  The text parameter of a locator cannot break out of its place: for
    a query and a retained context that are strings, on a cache that
    holds locators, the locator returned is the fixed endpoint, an
    encoded key made of unreserved characters and percent signs only (no
    ampersand, equals sign, hash or space), and the fixed parameters. *)
Theorem locator_text_is_encoded (urlCache : Map.t)
        (english : jsstring) (chinese : option jsstring) (url : jsstring) :
  Spec.cache_ok urlCache ->
  Session.isString english ->
  (forall c, chinese = Some c -> Session.isString c) ->
  fst (Utils.buildSuggestionsUrl urlCache english chinese) = Ok url ->
  exists encoded,
    url = Utils.url_prefix ++ encoded ++ Utils.url_params ++ Utils.callbackName /\
    Forall (fun c => Session.isEncoded c = true) encoded /\
    ~ In 38 encoded /\ ~ In 61 encoded /\ ~ In 35 encoded /\ ~ In 32 encoded.
Proof.
  intros Hok He Hc H.
  rewrite (proj1 (buildSuggestionsUrl_locator urlCache english chinese Hok)) in H.
  unfold Spec.locator in H.
  destruct (URI.encodeURIComponent (Utils.input_of english chinese))
    as [enc|] eqn:E; [|discriminate].
  inversion H; subst. exists enc. split; [reflexivity|].
  assert (A : Forall (fun c => Session.isEncoded c = true) enc).
  { apply (encodeChars_encoded (Utils.input_of english chinese)); [|exact E].
    unfold Session.isString in *.
    destruct chinese as [[|c cs]|]; simpl; auto.
    specialize (Hc _ eq_refl).
    constructor; [lia|].
    change (c :: cs ++ 44 :: english) with ((c :: cs) ++ 44 :: english).
    apply Forall_app. split; [exact Hc|]. constructor; [lia | exact He]. }
  split; [exact A|]. rewrite Forall_forall in A.
  repeat split; intros Hin; apply A in Hin; discriminate Hin.
Qed.

Lemma locator_text_is_encoded_witness :
  exists encoded,
    fst (Utils.buildSuggestionsUrl Map.empty (u16 "a&b=c d") (Some [0x4F60])) =
      Ok (Utils.url_prefix ++ encoded ++ Utils.url_params ++ Utils.callbackName) /\
    ~ In 38 encoded.
Proof.
  destruct (locator_text_is_encoded
              Map.empty (u16 "a&b=c d") (Some [0x4F60])
              (u16 "https://inputtools.google.com/request?text=%7C%E4%BD%A0%2Ca%26b%3Dc%20d&itc=yue-hant-t-i0-und&num=13&cp=0&cs=1&ie=utf-8&oe=utf-8&app=jsapi&cb=_callbacks____raycast")
              cache_ok_empty)
    as (enc & E1 & _ & E2 & _).
  - unfold Session.isString. repeat constructor; discriminate.
  - intros c H. inversion H. unfold Session.isString.
    repeat constructor; discriminate.
  - vm_compute. reflexivity.
  - exists enc. split; [|exact E2]. rewrite <- E1. vm_compute. reflexivity.
Defined.

(** ** The bound of the cache *)

(** X24.  With no empty canonical key among the calls, the cache is within
    its bound of 100 entries after every call of a sequence made on a
    fresh cache. *)
Theorem urlCache_bounded_at_all_times
        (calls : list (jsstring * option jsstring)) (k : nat) :
  Forall (fun c => Utils.input_of (fst c) (snd c) <> []) calls ->
  Map.size (snd (Utils.build_calls Map.empty (firstn k calls))) <= 100.
Proof.
  intros H.
  apply (build_calls_bounded (firstn k calls) Map.empty cache_bounded_empty).
  apply Forall_forall. intros c Hc. rewrite Forall_forall in H.
  apply H. revert Hc. apply firstn_In || (clear; revert calls;
    induction k; intros [|x calls]; simpl; intuition).
Qed.

Lemma urlCache_bounded_at_all_times_witness :
  Map.size (snd (Utils.build_calls Map.empty
                   (firstn 150 (Spec.numbered_queries 150)))) <= 100.
Proof.
  apply (urlCache_bounded_at_all_times (Spec.numbered_queries 150) 150).
  apply nonempty_keys_check. vm_compute. reflexivity.
Defined.

Lemma urlCache_fifo_witness :
  Map.keys (snd (Utils.build_calls Map.empty (Spec.numbered_queries 103))) =
  skipn 3 (map fst (Spec.numbered_queries 103)).
Proof.
  assert (E : map (fun c : jsstring * option jsstring =>
                     Utils.input_of (fst c) (snd c))
                  (Spec.numbered_queries 103) =
              map fst (Spec.numbered_queries 103))
    by (vm_compute; reflexivity).
  pose proof (urlCache_fifo (Spec.numbered_queries 103) Map.empty) as F.
  cbv zeta in F. rewrite E in F. cbn [Map.keys Map.empty map app] in F.
  rewrite F.
  - vm_compute. reflexivity.
  - simpl. lia.
  - assert (N : nodup (list_eq_dec Z.eq_dec)
                      (map fst (Spec.numbered_queries 103)) =
                map fst (Spec.numbered_queries 103)) by (vm_compute; reflexivity).
    rewrite <- N. apply NoDup_nodup.
  - apply nonempty_check. vm_compute. reflexivity.
  - apply wellformed_check. vm_compute. reflexivity.
Defined.

(** ** The debounced query, both ways *)




(** ** What the handlers keep *)

Lemma goToNextPage_frame (st : InputTools.State) :
  InputTools.urlCache (InputTools.goToNextPage st) = InputTools.urlCache st /\
  InputTools.regex (InputTools.goToNextPage st) = InputTools.regex st /\
  (0 <= InputTools.currentPageState st ->
   0 <= InputTools.currentPageState (InputTools.goToNextPage st)).
Proof.
  unfold InputTools.goToNextPage.
  destruct (InputTools.hasNextPage (InputTools.pagination st)); [|auto].
  cbn [InputTools.urlCache InputTools.regex InputTools.currentPageState
       InputTools.setCurrentPage].
  repeat split. intros H.
  unfold InputTools.pagination, InputTools.usePagination.
  cbn [InputTools.totalPages]. lia.
Qed.

Lemma goToPreviousPage_frame (st : InputTools.State) :
  InputTools.urlCache (InputTools.goToPreviousPage st) = InputTools.urlCache st /\
  InputTools.regex (InputTools.goToPreviousPage st) = InputTools.regex st /\
  (0 <= InputTools.currentPageState st ->
   0 <= InputTools.currentPageState (InputTools.goToPreviousPage st)).
Proof.
  unfold InputTools.goToPreviousPage.
  destruct (InputTools.hasPreviousPage (InputTools.pagination st)); [|auto].
  cbn [InputTools.urlCache InputTools.regex InputTools.currentPageState
       InputTools.setCurrentPage].
  repeat split. lia.
Qed.

Lemma handleSuggestionSelect_frame (st : InputTools.State)
      (sg : InputTools.Suggestion) :
  InputTools.urlCache (InputTools.handleSuggestionSelect st sg) =
    InputTools.urlCache st /\
  InputTools.currentPageState (InputTools.handleSuggestionSelect st sg) =
    InputTools.currentPageState st.
Proof.
  unfold InputTools.handleSuggestionSelect.
  destruct (Utils.separateChineseAndEnglish _ _). split; reflexivity.
Qed.

Lemma handleSearchTextChange_frame (st : InputTools.State) (text : jsstring) :
  InputTools.urlCache (InputTools.handleSearchTextChange st text) =
    InputTools.urlCache st /\
  (0 <= InputTools.currentPageState st ->
   0 <= InputTools.currentPageState (InputTools.handleSearchTextChange st text)).
Proof.
  unfold InputTools.handleSearchTextChange.
  set (st1 := match trim text with
              | [] => InputTools.setHasSelectedSuggestion false st
              | _ :: _ => st
              end).
  assert (H1 : InputTools.urlCache st1 = InputTools.urlCache st /\
               InputTools.currentPageState st1 = InputTools.currentPageState st)
    by (subst st1; destruct (trim text); split; reflexivity).
  destruct H1 as [C1 P1]. rewrite <- C1, <- P1. clearbody st1. clear C1 P1 st.
  assert (Hnum : forall b st2,
             InputTools.handleNumericAction st1 text = (b, st2) ->
             InputTools.urlCache st2 = InputTools.urlCache st1 /\
             (0 <= InputTools.currentPageState st1 ->
              0 <= InputTools.currentPageState st2)).
  { intros b st2. unfold InputTools.handleNumericAction.
    destruct (negb _); [intros E; inversion E; subst; auto|].
    destruct (RegExp.SELECTION_REGEX text) as [[baseText digit]|];
      [|intros E; inversion E; subst; auto].
    destruct ((1 <=? digit - 48) && (digit - 48 <=? 6)).
    - destruct (digit - 48 - 1 <? _); [|intros E; inversion E; subst; auto].
      destruct (nth_error _ _) as [sg|]; intros E; inversion E; subst; auto.
      destruct (handleSuggestionSelect_frame st1 sg) as [A B].
      rewrite A, B. auto.
    - destruct ((digit - 48 =? 0) && _).
      + intros E; inversion E; subst.
        destruct (goToNextPage_frame st1) as (A & _ & B). split; [exact A | exact B].
      + destruct ((digit - 48 =? 9) && _); intros E; inversion E; subst; auto.
        destruct (goToPreviousPage_frame st1) as (A & _ & B).
        split; [exact A | exact B]. }
  destruct (InputTools.handleNumericAction st1 text) as [handled st2].
  destruct (Hnum _ _ eq_refl) as [A B].
  destruct handled; [auto|].
  destruct (Utils.separateChineseAndEnglish (InputTools.regex st2) text).
  split; [exact A | exact B].
Qed.

Lemma query_key_nonempty (english chinese : jsstring) (c : Z) (s : jsstring) :
  trim english = c :: s -> Utils.input_of english (Some chinese) <> [].
Proof.
  intros H. destruct chinese; simpl; [|discriminate].
  intros ->. discriminate H.
Qed.

Lemma invariant_same_cache (st st' : InputTools.State) :
  Session.invariant st ->
  0 <= InputTools.currentPageState st' ->
  Utils.CHINESE_lastIndex (InputTools.regex st') = 0%nat ->
  InputTools.urlCache st' = InputTools.urlCache st ->
  Session.invariant st'.
Proof.
  intros (_ & _ & Hok & Hb) Hp Hr Hc. unfold Session.invariant.
  rewrite Hc. auto.
Qed.

Lemma debounceElapsed_invariant
      (useFetch : jsstring -> list jsstring -> list jsstring)
      (st st' : InputTools.State) :
  Session.invariant st ->
  InputTools.debounceElapsed useFetch st = Ok st' ->
  Session.invariant st'.
Proof.
  intros Hinv H. pose proof Hinv as (Hp & Hr & Hok & Hb).
  pose proof (debounceElapsed_regex useFetch st st' Hr H) as R.
  revert H. unfold InputTools.debounceElapsed.
  destruct (jsstring_eqb _ _); [intros H; inversion H; subst; exact Hinv|].
  unfold InputTools.suggestionsUrl.
  destruct (trim (InputTools.searchText st)).
  { intros H; inversion H; subst. unfold Session.invariant. cbn in *.
    repeat split; auto; try lia; apply Hb. }
  destruct (Utils.separateChineseAndEnglish _ _) as [sep re].
  destruct (trim (Utils.english sep)) eqn:T.
  { intros H; inversion H; subst. unfold Session.invariant. cbn in *.
    repeat split; auto; try lia; apply Hb. }
  pose proof (proj2 (buildSuggestionsUrl_locator
                       (InputTools.urlCache st) (Utils.english sep)
                       (Some (Utils.chinese sep)) Hok)) as L.
  pose proof (buildSuggestionsUrl_bounded
                (InputTools.urlCache st) (Utils.english sep)
                (Some (Utils.chinese sep)) Hb
                (query_key_nonempty _ _ _ _ T)) as B.
  destruct (Utils.buildSuggestionsUrl _ _ _) as [[url|e] cache];
    intros H; inversion H; subst.
  unfold Session.invariant. cbn in *. repeat split; auto; try lia; apply B.
Qed.

(** X27.  Every handler keeps the state sound: from a state whose page index
    is not negative, whose CJK regex is at rest and whose cache holds at
    most 100 entries, each the locator of its non-empty key, a
    buffer-change event, a move to the next or previous page, the
    selection of a candidate and the elapse of the debounce timer
    (whatever data the fetch hook returns) all lead to such a state
    again; the first component state is one. *)
Theorem handlers_keep_invariant (st : InputTools.State) :
  Session.invariant InputTools.initial /\
  (Session.invariant st ->
   (forall text, Session.invariant (InputTools.handleSearchTextChange st text)) /\
   Session.invariant (InputTools.goToNextPage st) /\
   Session.invariant (InputTools.goToPreviousPage st) /\
   (forall sg, Session.invariant (InputTools.handleSuggestionSelect st sg)) /\
   (forall useFetch st',
       InputTools.debounceElapsed useFetch st = Ok st' ->
       Session.invariant st')).
Proof.
  split.
  { split; [cbn; lia|]. split; [reflexivity|].
    split; [apply cache_ok_empty | apply cache_bounded_empty]. }
  intros Hinv. pose proof Hinv as (Hp & Hr & _).
  split; [|split; [|split; [|split]]].
  - intros text. apply (invariant_same_cache st); auto.
    + now apply handleSearchTextChange_frame.
    + now apply handleSearchTextChange_regex.
    + apply handleSearchTextChange_frame.
  - destruct (goToNextPage_frame st) as (A & B & C).
    apply (invariant_same_cache st); auto. now rewrite B.
  - destruct (goToPreviousPage_frame st) as (A & B & C).
    apply (invariant_same_cache st); auto. now rewrite B.
  - intros sg. destruct (handleSuggestionSelect_frame st sg) as [A B].
    apply (invariant_same_cache st); auto.
    + now rewrite B.
    + unfold InputTools.handleSuggestionSelect.
      destruct (regex_separate_chinese (InputTools.regex st)
                                       (InputTools.searchText st) Hr) as [_ E].
      cbv zeta in E. destruct (Utils.separateChineseAndEnglish _ _). exact E.
  - intros useFetch st'. now apply debounceElapsed_invariant.
Qed.

Lemma handlers_keep_invariant_witness :
  Session.invariant
    (InputTools.handleSearchTextChange
       (InputTools.handleSearchTextChange InputTools.initial (u16 "nei"))
       (u16 "nei0")).
Proof.
  exact (proj1 (proj2 (handlers_keep_invariant
                         (InputTools.handleSearchTextChange InputTools.initial
                                                            (u16 "nei")))
                      (proj1 (proj2 (handlers_keep_invariant InputTools.initial)
                                    (proj1 (handlers_keep_invariant
                                              InputTools.initial)))
                             (u16 "nei")))
               (u16 "nei0")).
Defined.

(** ** After a selection *)

Lemma fold_units_cjk (s : jsstring) :
  Forall (fun c => isChinese c = true) s ->
  forall out nl,
    Utils.english
      (fst (fold_left (fun a c => Utils.separate_step a [c]) s
              (out, {| Utils.CHINESE_lastIndex := 0;
                       Utils.NUMERIC_lastIndex := nl |}))) =
    Utils.english out.
Proof.
  induction 1 as [|c s Hc _ IH]; intros out nl; cbn [fold_left];
    [reflexivity|].
  rewrite separate_step_unit, Hc. simpl ((0 =? 0)%nat && true).
  cbv iota. now rewrite IH.
Qed.

Lemma separate_cjk (re : Utils.RegexState) (text : jsstring) :
  Utils.CHINESE_lastIndex re = 0%nat ->
  Forall (fun c => isChinese c = true) text ->
  Utils.english (fst (Utils.separateChineseAndEnglish re text)) = [].
Proof.
  intros H Hc. destruct re as [cl nl]; simpl in H; subst cl.
  destruct text as [|c text]; [reflexivity|].
  unfold Utils.separateChineseAndEnglish.
  now rewrite fold_chars_units, fold_units_cjk.
Qed.

(** X28.  After the selection of a candidate made of CJK characters only, the
    buffer has no query part: when the debounce timer brings it, the
    page is reset, no locator is built and no request is made, whatever
    data the fetch hook returns; the cache is as it was before the
    selection. *)
Theorem selection_then_quiet
        (useFetch : jsstring -> list jsstring -> list jsstring)
        (st : InputTools.State)
        (base : jsstring) (n : Z) (candidate : jsstring) :
  Utils.CHINESE_lastIndex (InputTools.regex st) = 0%nat ->
  Forall (fun c => isLineTerminator c = false) base ->
  1 <= n <= 6 ->
  nth_error
    (InputTools.slice (InputTools.suggestions st)
                      (InputTools.startIndex (InputTools.pagination st))
                      (InputTools.endIndex (InputTools.pagination st)))
    (Z.to_nat (n - 1)) = Some candidate ->
  Forall (fun c => isChinese c = true) candidate ->
  let st' := InputTools.handleSearchTextChange st (base ++ [48 + n]) in
  InputTools.searchText st' <> InputTools.debouncedSearchText st' ->
  exists st'',
    InputTools.debounceElapsed useFetch st' = Ok st'' /\
    InputTools.suggestionsUrlMemo st'' = [] /\
    InputTools.request (InputTools.suggestionsUrlMemo st'') = None /\
    InputTools.currentPageState st'' = 0 /\
    InputTools.urlCache st'' = InputTools.urlCache st.
Proof.
  intros Hre Hb Hn Hc Hcjk st'. subst st'.
  rewrite handleSearchTextChange_digit by assumption.
  rewrite paginatedSuggestions_nth, Hc. cbn [option_map].
  unfold InputTools.handleSuggestionSelect. cbn [InputTools.text].
  destruct (regex_separate_chinese (InputTools.regex st)
                                   (InputTools.searchText st) Hre) as [E1 E2].
  cbv zeta in E1, E2.
  destruct (Utils.separateChineseAndEnglish (InputTools.regex st)
                                            (InputTools.searchText st))
    as [sep re].
  cbn [fst snd] in E1, E2.
  cbn [InputTools.searchText InputTools.debouncedSearchText InputTools.mutate
       InputTools.setHasSelectedSuggestion InputTools.setSearchText
       InputTools.setRegex].
  intros Hne. unfold InputTools.debounceElapsed.
  cbn [InputTools.searchText InputTools.debouncedSearchText InputTools.mutate
       InputTools.setHasSelectedSuggestion InputTools.setSearchText
       InputTools.setRegex InputTools.regex InputTools.urlCache
       InputTools.suggestions InputTools.hasSelectedSuggestion].
  apply jsstring_eqb_neq in Hne. rewrite Hne.
  assert (A : Forall (fun c => isChinese c = true)
                     (Utils.chinese sep ++ candidate)).
  { apply Forall_app. split; [|exact Hcjk]. rewrite E1.
    apply Forall_forall. intros c Hin. unfold Spec.retained in Hin.
    now apply filter_In in Hin. }
  pose proof (separate_cjk re _ E2 A) as Q.
  unfold InputTools.suggestionsUrl.
  destruct (trim (Utils.chinese sep ++ candidate));
    [eexists; repeat split|].
  destruct (Utils.separateChineseAndEnglish re (Utils.chinese sep ++ candidate))
    as [sep' re'].
  cbn [fst] in Q. rewrite Q. cbn [trim rev trimStart].
  eexists; repeat split.
Qed.

Lemma selection_then_quiet_witness :
  let st := InputTools.handleSearchTextChange
              (InputTools.showing (u16 "nei")
                 [[0x5462]; [0x5C3C]; [0x59AE]; [0x6CE5]; [0x4F60]; [0x81A9]])
              (u16 "nei5") in
  exists st'',
    InputTools.debounceElapsed (fun _ previous => previous) st = Ok st'' /\
    InputTools.suggestionsUrlMemo st'' = [] /\
    InputTools.request (InputTools.suggestionsUrlMemo st'') = None.
Proof.
  destruct (selection_then_quiet
              (fun _ previous => previous)
              (InputTools.showing (u16 "nei")
                 [[0x5462]; [0x5C3C]; [0x59AE]; [0x6CE5]; [0x4F60]; [0x81A9]])
              (u16 "nei") 5 [0x4F60]
              eq_refl
              (single_line_check (u16 "nei") eq_refl)
              (conj (Zle_bool_imp_le 1 5 eq_refl) (Zle_bool_imp_le 5 6 eq_refl))
              eq_refl
              (Forall_cons _ (eq_refl : isChinese 0x4F60 = true) (Forall_nil _)))
    as (st'' & E1 & E2 & E3 & _).
  - vm_compute. discriminate.
  - exists st''. repeat split; assumption.
Defined.
